(** * jsonparser: the lexer (both versions kept in lexer.go) and parseObject

    A shallow embedding of [internal/lexer/lexer.go] and of the parser's
    [parseObject].  Go strings are byte sequences, modelled as [list Z]
    (every element in [0, 256)); runes and bytes are [Z]; indices into the
    input are [nat].  Loops carry a fuel argument; the entry points supply
    a fuel that is derived from the length of the input.

    lexer.go holds two versions of the lexer, one after the other: they are
    the modules [Lexer1] and [Lexer2].  The definitions come first, the
    statements about them after. *)

From Stdlib Require Import ZArith List String Ascii Bool Lia.
From Stdlib Require Import DecimalString HexadecimalString.
From stdpp Require Import gmap strings list.

Local Open Scope Z_scope.

(** ** Go strings and the pieces of the Go standard library that are used *)

Abbreviation GoString := (list Z).

(** The bytes of a string literal. *)
Fixpoint bytes (s : string) : GoString :=
  match s with
  | EmptyString => []
  | String c s' => Z.of_N (N_of_ascii c) :: bytes s'
  end.

(** [s[i]]; the callers test the index against [len(s)] first. *)
Definition byteAt (s : GoString) (i : nat) : Z := nth i s 0.

(** [s[lo:hi]] for [lo <= hi <= len(s)]. *)
Definition slice (s : GoString) (lo hi : nat) : GoString :=
  firstn (hi - lo) (skipn lo s).

Definition GoString_eqb (a b : GoString) : bool :=
  bool_decide (a = b).

Definition RuneError : Z := 0xFFFD.
Definition MaxRune : Z := 0x10FFFF.
Definition MaxLatin1 : Z := 0xFF.

(** [byte(x)] for a non-negative integer. *)
Definition to_byte (x : Z) : Z := Z.land x 0xFF.

(** utf8.EncodeRune / strings.Builder.WriteRune / string(rune). *)
Definition EncodeRune (r : Z) : GoString :=
  let enc3 (r : Z) :=
    [Z.lor 0xE0 (Z.shiftr r 12);
     Z.lor 0x80 (Z.land (Z.shiftr r 6) 0x3F);
     Z.lor 0x80 (Z.land r 0x3F)] in
  if (r <? 0) then enc3 RuneError
  else if r <=? 0x7F then [r]
  else if r <=? 0x7FF then
    [Z.lor 0xC0 (Z.shiftr r 6); Z.lor 0x80 (Z.land r 0x3F)]
  else if (MaxRune <? r) || ((0xD800 <=? r) && (r <=? 0xDFFF)) then enc3 RuneError
  else if r <=? 0xFFFF then enc3 r
  else
    [Z.lor 0xF0 (Z.shiftr r 18);
     Z.lor 0x80 (Z.land (Z.shiftr r 12) 0x3F);
     Z.lor 0x80 (Z.land (Z.shiftr r 6) 0x3F);
     Z.lor 0x80 (Z.land r 0x3F)].

(** utf8.DecodeRuneInString: the first rune of [s] and its width. *)
Definition DecodeRuneInString (s : GoString) : Z * nat :=
  let cont (b : Z) := (0x80 <=? b) && (b <=? 0xBF) in
  let within (lo hi b : Z) := (lo <=? b) && (b <=? hi) in
  match s with
  | [] => (RuneError, 0%nat)
  | s0 :: t =>
    if s0 <? 0x80 then (s0, 1%nat)
    else if (s0 <? 0xC2) || (0xF4 <? s0) then (RuneError, 1%nat)
    else if s0 <? 0xE0 then
      match t with
      | s1 :: _ =>
        if cont s1
        then (Z.lor (Z.shiftl (Z.land s0 0x1F) 6) (Z.land s1 0x3F), 2%nat)
        else (RuneError, 1%nat)
      | _ => (RuneError, 1%nat)
      end
    else if s0 <? 0xF0 then
      let lo := if s0 =? 0xE0 then 0xA0 else 0x80 in
      let hi := if s0 =? 0xED then 0x9F else 0xBF in
      match t with
      | s1 :: s2 :: _ =>
        if within lo hi s1 && cont s2
        then (Z.lor (Z.shiftl (Z.land s0 0x0F) 12)
                (Z.lor (Z.shiftl (Z.land s1 0x3F) 6) (Z.land s2 0x3F)), 3%nat)
        else (RuneError, 1%nat)
      | _ => (RuneError, 1%nat)
      end
    else
      let lo := if s0 =? 0xF0 then 0x90 else 0x80 in
      let hi := if s0 =? 0xF4 then 0x8F else 0xBF in
      match t with
      | s1 :: s2 :: s3 :: _ =>
        if within lo hi s1 && cont s2 && cont s3
        then (Z.lor (Z.shiftl (Z.land s0 0x07) 18)
                (Z.lor (Z.shiftl (Z.land s1 0x3F) 12)
                   (Z.lor (Z.shiftl (Z.land s2 0x3F) 6) (Z.land s3 0x3F))), 4%nat)
        else (RuneError, 1%nat)
      | _ => (RuneError, 1%nat)
      end
  end.

(** utf8.RuneStart *)
Definition RuneStart (b : Z) : bool := negb (Z.land b 0xC0 =? 0x80).

(** The backwards loop of utf8.DecodeLastRuneInString,
    [for start--; start >= lim; start-- { if RuneStart(s[start]) { break } }],
    entered after the [start--]; it runs at most [UTFMax] times. *)
Fixpoint scanRuneStart (s : GoString) (lim : Z) (steps : nat) (start : Z) : Z :=
  match steps with
  | O => start
  | S steps' =>
    if start <? lim then start
    else if RuneStart (byteAt s (Z.to_nat start)) then start
    else scanRuneStart s lim steps' (start - 1)
  end.

(** utf8.DecodeLastRuneInString: the last rune of [s] and its width. *)
Definition DecodeLastRuneInString (s : GoString) : Z * nat :=
  let e := Z.of_nat (length s) in
  if e =? 0 then (RuneError, 0%nat)
  else
    let r := byteAt s (Z.to_nat (e - 1)) in
    if r <? 0x80 then (r, 1%nat)
    else
      let lim := Z.max (e - 4) 0 in
      let start := Z.max (scanRuneStart s lim 4 (e - 2)) 0 in
      let '(r', size) := DecodeRuneInString (slice s (Z.to_nat start) (length s)) in
      if start + Z.of_nat size =? e then (r', size) else (RuneError, 1%nat).

(** utf16.DecodeRune *)
Definition utf16_DecodeRune (r1 r2 : Z) : Z :=
  if (0xD800 <=? r1) && (r1 <? 0xDC00) && (0xDC00 <=? r2) && (r2 <? 0xE000)
  then Z.lor (Z.shiftl (r1 - 0xD800) 10) (r2 - 0xDC00) + 0x10000
  else RuneError.

(** unicode.IsSpace.  Up to Latin-1 the function tests eight characters;
    above it consults the White_Space range table. *)
Definition IsSpace (r : Z) : bool :=
  if (0 <=? r) && (r <=? MaxLatin1) then
    (r =? 9) || (r =? 10) || (r =? 11) || (r =? 12) || (r =? 13)
    || (r =? 32) || (r =? 0x85) || (r =? 0xA0)
  else
    (r =? 0x1680) || ((0x2000 <=? r) && (r <=? 0x200A))
    || (r =? 0x2028) || (r =? 0x2029) || (r =? 0x202F)
    || (r =? 0x205F) || (r =? 0x3000).

(** fmt.Sscanf(hex, "%04x", &v): at most four hexadecimal digits are
    scanned; [None] when the text does not start with one. *)
Definition hexDigitValue (c : Z) : option Z :=
  if (48 <=? c) && (c <=? 57) then Some (c - 48)
  else if (97 <=? c) && (c <=? 102) then Some (c - 97 + 10)
  else if (65 <=? c) && (c <=? 70) then Some (c - 65 + 10)
  else None.

Fixpoint scanHex (width : nat) (acc : Z) (s : GoString) : Z :=
  match width, s with
  | S w, c :: t =>
    match hexDigitValue c with
    | Some d => scanHex w (16 * acc + d) t
    | None => acc
    end
  | _, _ => acc
  end.

Definition Sscanf_04x (s : GoString) : option Z :=
  match s with
  | c :: _ => match hexDigitValue c with
              | Some _ => Some (scanHex 4 0 s)
              | None => None
              end
  | [] => None
  end.

(** ** Errors

    [fmt.Errorf(format, args...)] is kept as the call that was made; [Error]
    renders the message for the verbs lexer.go uses (%d, %c, %s, %v, %04X).
    An error passed to %v is passed as its message.  The message of
    [NewUnexpectedCharacterError] is built outside lexer.go and is left
    empty. *)

Inductive fmtArg :=
| AInt (z : Z)
| AStr (s : GoString).

Inductive error :=
| Errorf (format : string) (args : list fmtArg)
| NewUnexpectedCharacterError (ch : Z).

Definition fmt_d (z : Z) : GoString :=
  bytes (DecimalString.NilZero.string_of_int (Z.to_int z)).

Definition upperHex (c : Z) : Z :=
  if (97 <=? c) && (c <=? 102) then c - 32 else c.

Definition fmt_04X (z : Z) : GoString :=
  let digits :=
    map upperHex (bytes (HexadecimalString.NilZero.string_of_uint (N.to_hex_uint (Z.to_N z)))) in
  repeat 48 (4 - length digits) ++ digits.

Definition fmt_verb (verb : Z) (a : fmtArg) : GoString :=
  match a with
  | AInt z => if verb =? 99 then EncodeRune z else fmt_d z
  | AStr s => s
  end.

Fixpoint Sprintf (format : GoString) (args : list fmtArg) : GoString :=
  match format with
  | 37 :: 48 :: 52 :: 88 :: rest =>
    match args with
    | AInt z :: args' => fmt_04X z ++ Sprintf rest args'
    | AStr s :: args' => s ++ Sprintf rest args'
    | [] => Sprintf rest []
    end
  | 37 :: verb :: rest =>
    match args with
    | a :: args' => fmt_verb verb a ++ Sprintf rest args'
    | [] => Sprintf rest []
    end
  | c :: rest => c :: Sprintf rest args
  | [] => []
  end.

(** [err.Error()] for the errors built with fmt.Errorf. *)
Definition Error (e : error) : GoString :=
  match e with
  | Errorf format args => Sprintf (bytes format) args
  | NewUnexpectedCharacterError c => []
  end.

(** A Go call returns its values or an error; a loop of the model that is
    given too little fuel ends in [Timeout]. *)
Inductive res (A : Type) :=
| Ok (a : A)
| Err (e : error)
| Timeout.
Arguments Ok {A} a.
Arguments Err {A} e.
Arguments Timeout {A}.

(** Token types (lexer.go, const block).  The second version of the file
    declares the same names without the two brackets. *)
Inductive TokenType :=
| TokenLeftBrace | TokenRightBrace | TokenLeftBracket | TokenRightBracket
| TokenColon | TokenComma | TokenString | TokenNumber
| TokenTrue | TokenFalse | TokenNull | TokenEOF.

(** Character constants. *)
Definition chr (c : ascii) : Z := Z.of_N (N_of_ascii c).
Definition quote : Z := 34.
Definition backslash : Z := 92.

(** ** The lexer, first version (lexer.go, lines 1-370)

    This version tracks line and column, reads runes and decodes surrogate
    pairs.  Three places of the text do not type-check as they stand and are
    read in the only way that keeps the statement: [numBuilder] in
    [readNumber] is not declared and is taken as a fresh [strings.Builder];
    [strBuilder.WriteByte(l.ch)] and [isHexDigit(l.ch)] receive the rune
    [l.ch] where a byte is expected and are read with the conversion
    [byte(l.ch)], respectively on the rune's value. *)
Module Lexer1.
Section Tables.

(** unicode.IsDigit consults the range table [unicode.Digit] for runes
    above Latin-1; the table is data of the Go standard library. *)
Variable Digit : Z -> bool.

Definition IsDigit (r : Z) : bool :=
  if r <=? MaxLatin1 then (chr "0" <=? r) && (r <=? chr "9") else Digit r.

Record Token := mkToken {
  Type_ : TokenType;
  Literal : GoString;
  Line : Z;
  Column : Z
}.

Record Lexer := mkLexer {
  input : GoString;
  position : nat;
  readPosition : nat;
  ch : Z;
  line : Z;
  column : Z
}.

(** readChar, lines 60-76. *)
Definition readChar (l : Lexer) : Lexer :=
  let l1 :=
    if (length (input l) <=? readPosition l)%nat then
      mkLexer (input l) (position l) (readPosition l) 0 (line l) (column l)
    else
      let '(r, size) := DecodeLastRuneInString (skipn (readPosition l) (input l)) in
      let rp := (readPosition l + size)%nat in
      if r =? chr "010"
      then mkLexer (input l) rp rp r (line l + 1) 0
      else mkLexer (input l) rp rp r (line l) (column l + 1) in
  mkLexer (input l1) (readPosition l1) (S (readPosition l1)) (ch l1)
          (line l1) (column l1).

(** NewLexer, lines 49-57. *)
Definition NewLexer (input : GoString) : Lexer :=
  readChar (mkLexer input 0 0 0 1 0).

(** The fuel given to every loop over the input of [l]. *)
Definition fuelOf (l : Lexer) : nat := S (S (length (input l))).

(** [for cond(l.ch) { l.readChar() }] *)
Fixpoint readWhile (fuel : nat) (cond : Z -> bool) (l : Lexer) : option Lexer :=
  match fuel with
  | O => None
  | S fuel' =>
    if cond (ch l) then readWhile fuel' cond (readChar l) else Some l
  end.

(** peekChar, lines 79-85. *)
Definition peekChar (l : Lexer) : Z :=
  if (length (input l) <=? readPosition l)%nat then 0
  else fst (DecodeLastRuneInString (skipn (readPosition l) (input l))).

(** skipWhitespace, lines 88-92. *)
Definition skipWhitespace (l : Lexer) : option Lexer :=
  readWhile (fuelOf l) IsSpace l.

(** peekKeyWord, lines 170-177. *)
Definition peekKeyWord (l : Lexer) (expected : GoString) : bool :=
  let e := (readPosition l + length expected)%nat in
  if (length (input l) <? e)%nat then false
  else GoString_eqb (slice (input l) (readPosition l) e) expected.

(** advanceBy, lines 180-184. *)
Definition advanceBy (l : Lexer) (n : nat) : Lexer := Nat.iter n readChar l.

(** isStartOfNumber, lines 187-189. *)
Definition isStartOfNumber (r : Z) : bool := (r =? chr "-") || IsDigit r.

(** consumeMinus, lines 248-253; it never returns an error. *)
Definition consumeMinus (l : Lexer) : Lexer :=
  if ch l =? chr "-" then readChar l else l.

(** [for unicode.IsDigit(l.ch) { numBuilder.WriteRune(l.ch); l.readChar() }] *)
Fixpoint readDigits (fuel : nat) (numBuilder : GoString) (l : Lexer)
  : option (GoString * Lexer) :=
  match fuel with
  | O => None
  | S fuel' =>
    if IsDigit (ch l)
    then readDigits fuel' (numBuilder ++ EncodeRune (ch l)) (readChar l)
    else Some (numBuilder, l)
  end.

(** readNumber, lines 192-245.  The lexer is returned next to the result:
    Tokenize reads [l.line] and [l.column] after the call, also when the
    call failed. *)
Definition readNumber (l : Lexer) : res GoString * Lexer :=
  let numBuilder : GoString := [] in
  let l := consumeMinus l in
  let '(numBuilder, l) :=
    if ch l =? chr "-" then (numBuilder ++ EncodeRune (ch l), readChar l)
    else (numBuilder, l) in
  if negb (IsDigit (ch l)) then
    (Err (Errorf "invalid number format: expected digit after '-'" []), l)
  else
    let fraction : res GoString * Lexer :=
      if ch l =? chr "." then
        let numBuilder := numBuilder ++ EncodeRune (ch l) in
        let l := readChar l in
        if negb (IsDigit (ch l)) then
          (Err (Errorf "invalid number format: expected digit after '.'" []), l)
        else match readDigits (fuelOf l) numBuilder l with
             | Some (numBuilder, l) => (Ok numBuilder, l)
             | None => (Timeout, l)
             end
      else (Ok numBuilder, l) in
    match fraction with
    | (Ok numBuilder, l) =>
      if (ch l =? chr "e") || (ch l =? chr "E") then
        let numBuilder := numBuilder ++ EncodeRune (ch l) in
        let l := readChar l in
        let '(numBuilder, l) :=
          if (ch l =? chr "+") || (ch l =? chr "-")
          then (numBuilder ++ EncodeRune (ch l), readChar l)
          else (numBuilder, l) in
        if negb (IsDigit (ch l)) then
          (Err (Errorf
                  "invalid number format: expected digit after exponent indicater" []),
           l)
        else match readDigits (fuelOf l) numBuilder l with
             | Some (numBuilder, l) => (Ok numBuilder, l)
             | None => (Timeout, l)
             end
      else (Ok numBuilder, l)
    | failed => failed
    end.

(** Lines 255-261 and 368-370. *)
Definition isHighSurrogate (r : Z) : bool := (0xD800 <=? r) && (r <=? 0xDBFF).
Definition isLowSurrogate (r : Z) : bool := (0xDC00 <=? r) && (r <=? 0xDFFF).
Definition isHexDigit (c : Z) : bool :=
  ((chr "0" <=? c) && (c <=? chr "9"))
  || ((chr "a" <=? c) && (c <=? chr "f"))
  || ((chr "A" <=? c) && (c <=? chr "F")).

(** readUnicode, lines 349-366: the loop, [n] rounds to go. *)
Fixpoint readUnicode_loop (n : nat) (hex : GoString) (l : Lexer)
  : res (GoString * Lexer) :=
  match n with
  | O => Ok (hex, l)
  | S n' =>
    if negb (isHexDigit (ch l)) then
      Err (Errorf "invalid Unicode escape sequence: \u%s" [AStr hex])
    else readUnicode_loop n' (hex ++ EncodeRune (ch l)) (readChar l)
  end.

Definition readUnicode (l : Lexer) : res (Z * Lexer) :=
  match readUnicode_loop 4 [] l with
  | Ok (hex, l) =>
    match Sscanf_04x hex with
    | Some unicodeValue => Ok (unicodeValue, l)
    | None => Err (Errorf "invalid Unicode escape sequence: \u%s" [AStr hex])
    end
  | Err e => Err e
  | Timeout => Timeout
  end.

(** readString, lines 267-347: the [for] loop that follows the first
    [l.readChar()]. *)
Fixpoint readString_loop (fuel : nat) (strBuilder : GoString) (l : Lexer)
  : res (GoString * Lexer) :=
  match fuel with
  | O => Timeout
  | S fuel' =>
    if ch l =? quote then Ok (strBuilder, readChar l)
    else if ch l =? backslash then
      let l := readChar l in
      let write (b : Z) := readString_loop fuel' (strBuilder ++ [b]) (readChar l) in
      if ch l =? quote then write quote
      else if ch l =? backslash then write backslash
      else if ch l =? chr "/" then write (chr "/")
      else if ch l =? chr "b" then write 8
      else if ch l =? chr "f" then write 12
      else if ch l =? chr "n" then write 10
      else if ch l =? chr "r" then write 13
      else if ch l =? chr "t" then write 9
      else if ch l =? chr "u" then
        match readUnicode l with
        | Ok (runeValue, l) =>
          if isHighSurrogate runeValue then
            if negb (ch l =? backslash) then
              Err (Errorf "expected '\' after high surrogate, got '%c'" [AInt (ch l)])
            else
              let l := readChar l in
              if negb (ch l =? chr "u") then
                Err (Errorf "expected 'u' after '\', got '%c'" [AInt (ch l)])
              else
                let l := readChar l in
                match readUnicode l with
                | Ok (lowSurrogate, l) =>
                  if negb (isLowSurrogate lowSurrogate) then
                    Err (Errorf "invalid low surrogate: \u%04X" [AInt lowSurrogate])
                  else
                    let combinedRune := utf16_DecodeRune runeValue lowSurrogate in
                    if combinedRune =? RuneError then
                      Err (Errorf "invalid surrogate pair: \u%04X\u%04X"
                                  [AInt runeValue; AInt lowSurrogate])
                    else
                      readString_loop fuel' (strBuilder ++ EncodeRune combinedRune)
                                      (readChar l)
                | Err e => Err e
                | Timeout => Timeout
                end
          else
            readString_loop fuel' (strBuilder ++ EncodeRune runeValue) (readChar l)
        | Err e => Err e
        | Timeout => Timeout
        end
      else
        Err (Errorf "unexpected character: '%c' in string escape" [AInt (ch l)])
    else if ch l =? 0 then Err (Errorf "unterminated string" [])
    else readString_loop fuel' (strBuilder ++ [to_byte (ch l)]) (readChar l)
  end.

Definition readString (l : Lexer) : res (GoString * Lexer) :=
  readString_loop (fuelOf l) [] (readChar l).

(** One round of the [for] loop of Tokenize, lines 99-160: the tokens and
    the lexer at the end of the round. *)
Definition Tokenize_round (tokens : list Token) (l : Lexer)
  : res (list Token * Lexer) :=
  match skipWhitespace l with
  | None => Timeout
  | Some l =>
    let punct (t : TokenType) (lit : string) :=
      Ok (tokens ++ [mkToken t (bytes lit) (line l) (column l)], readChar l) in
    let keyword (t : TokenType) (lit : string) (message : string) :=
      if peekKeyWord l (bytes lit) then
        let tok := mkToken t (bytes lit) (line l) (column l) in
        let l := advanceBy l (length (bytes lit)) in
        Ok (tokens ++ [tok], readChar l)
      else
        Err (Errorf message [AInt (line l); AInt (column l)]) in
    let c := ch l in
    if c =? chr "{" then punct TokenLeftBrace "{"
    else if c =? chr "}" then punct TokenRightBrace "}"
    else if c =? chr "[" then punct TokenLeftBracket "["
    else if c =? chr "]" then punct TokenRightBracket "]"
    else if c =? chr ":" then punct TokenColon ":"
    else if c =? chr "," then punct TokenComma ","
    else if c =? quote then
      match readString l with
      | Ok (str, l) =>
        Ok (tokens ++ [mkToken TokenString str (line l) (column l)], l)
      | Err e => Err e
      | Timeout => Timeout
      end
    else if c =? chr "t" then
      keyword TokenTrue "true"
        "Lexer error at line %d, column %d: invalid token starting with 't'"
    else if c =? chr "f" then
      keyword TokenFalse "false"
        "Lexer error at line %d, column %d: invalid token starting with 'f'"
    else if c =? chr "n" then
      keyword TokenNull "null"
        "Lexer error at line %d, column %d: invalid token starting with 'n'"
    else if isStartOfNumber c then
      match readNumber l with
      | (Ok num, l) =>
        Ok (tokens ++ [mkToken TokenNumber num (line l) (column l)], readChar l)
      | (Err err, l) =>
        Err (Errorf "Lexer error at line %d, column %d: %v"
                    [AInt (line l); AInt (column l); AStr (Error err)])
      | (Timeout, _) => Timeout
      end
    else
      Err (Errorf "Lexer error at line %d, column %d: unexpected character: %c"
                  [AInt (ch l); AInt (line l); AInt (column l)])
  end.

(** Tokenize, lines 95-167. *)
Fixpoint Tokenize_loop (fuel : nat) (tokens : list Token) (l : Lexer)
  : res (list Token) :=
  match fuel with
  | O => Timeout
  | S fuel' =>
    if ch l =? 0 then
      Ok (tokens ++ [mkToken TokenEOF [] (line l) (column l)])
    else
      match Tokenize_round tokens l with
      | Ok (tokens, l) => Tokenize_loop fuel' tokens l
      | Err e => Err e
      | Timeout => Timeout
      end
  end.

Definition Tokenize (l : Lexer) : res (list Token) :=
  Tokenize_loop (fuelOf l) [] l.

End Tables.
End Lexer1.

(** ** The lexer, second version (lexer.go, lines 372-600)

    A byte lexer without positions: [l.ch] is a byte, tokens carry a type
    and a literal.  [NewUnexpectedCharacterError] is declared outside
    lexer.go and is kept as a constructor of [error]. *)
Module Lexer2.

Record Token := mkToken {
  Type_ : TokenType;
  Literal : GoString
}.

Record Lexer := mkLexer {
  input : GoString;
  position : nat;
  readPosition : nat;
  ch : Z
}.

(** readChar, lines 411-419. *)
Definition readChar (l : Lexer) : Lexer :=
  let c :=
    if (length (input l) <=? readPosition l)%nat then 0
    else byteAt (input l) (readPosition l) in
  mkLexer (input l) (readPosition l) (S (readPosition l)) c.

(** NewLexer, lines 405-409. *)
Definition NewLexer (input : GoString) : Lexer :=
  readChar (mkLexer input 0 0 0).

(** The fuel given to every loop over the input of [l]. *)
Definition fuelOf (l : Lexer) : nat := S (S (length (input l))).

(** Lines 481-483 and 553-563. *)
Definition isWhiteSpace (c : Z) : bool :=
  (c =? chr " ") || (c =? 9) || (c =? 10) || (c =? 13).
Definition isHexDigit (c : Z) : bool :=
  ((chr "0" <=? c) && (c <=? chr "9"))
  || ((chr "a" <=? c) && (c <=? chr "f"))
  || ((chr "A" <=? c) && (c <=? chr "F")).
Definition isLetter (c : Z) : bool :=
  ((chr "a" <=? c) && (c <=? chr "z"))
  || ((chr "A" <=? c) && (c <=? chr "Z"))
  || (c =? chr "_").
Definition isDigit (c : Z) : bool := (chr "0" <=? c) && (c <=? chr "9").

(** [for cond(l.ch) { l.readChar() }] *)
Fixpoint readWhile (fuel : nat) (cond : Z -> bool) (l : Lexer) : option Lexer :=
  match fuel with
  | O => None
  | S fuel' =>
    if cond (ch l) then readWhile fuel' cond (readChar l) else Some l
  end.

(** skipWhiteSpace, lines 475-479. *)
Definition skipWhiteSpace (l : Lexer) : option Lexer :=
  readWhile (fuelOf l) isWhiteSpace l.

(** readUnicode, lines 534-551: the loop, [n] rounds to go. *)
Fixpoint readUnicode_loop (n : nat) (hex : GoString) (l : Lexer)
  : res (GoString * Lexer) :=
  match n with
  | O => Ok (hex, l)
  | S n' =>
    let l := readChar l in
    if negb (isHexDigit (ch l)) then
      Err (Errorf "invalid Unicode escpae sequence" [])
    else readUnicode_loop n' (hex ++ EncodeRune (ch l)) l
  end.

Definition readUnicode (l : Lexer) : res (Z * Lexer) :=
  match readUnicode_loop 4 [] l with
  | Ok (hex, l) =>
    match Sscanf_04x hex with
    | Some unicodeValue => Ok (unicodeValue, l)
    | None => Err (Errorf "invalid Unicode escape sequence" [])
    end
  | Err e => Err e
  | Timeout => Timeout
  end.

(** readString, lines 485-532: the [for] loop that follows the first
    [l.readChar()]. *)
Fixpoint readString_loop (fuel : nat) (strBuilder : GoString) (l : Lexer)
  : res (GoString * Lexer) :=
  match fuel with
  | O => Timeout
  | S fuel' =>
    if ch l =? quote then Ok (strBuilder, readChar l)
    else if ch l =? backslash then
      let l := readChar l in
      let write (b : Z) := readString_loop fuel' (strBuilder ++ [b]) (readChar l) in
      if ch l =? quote then write quote
      else if ch l =? backslash then write backslash
      else if ch l =? chr "/" then write (chr "/")
      else if ch l =? chr "b" then write 8
      else if ch l =? chr "f" then write 12
      else if ch l =? chr "n" then write 10
      else if ch l =? chr "r" then write 13
      else if ch l =? chr "t" then write 9
      else if ch l =? chr "u" then
        match readUnicode l with
        | Ok (unicodeChar, l) =>
          readString_loop fuel' (strBuilder ++ [to_byte unicodeChar]) (readChar l)
        | Err e => Err e
        | Timeout => Timeout
        end
      else Err (NewUnexpectedCharacterError (ch l))
    else if ch l =? 0 then Err (Errorf "unterminated string" [])
    else readString_loop fuel' (strBuilder ++ [ch l]) (readChar l)
  end.

Definition readString (l : Lexer) : res (GoString * Lexer) :=
  readString_loop (fuelOf l) [] (readChar l).

(** readLiteral, lines 565-573. *)
Definition readLiteral (l : Lexer) : option (GoString * Lexer) :=
  let position0 := position l in
  match readWhile (fuelOf l) (fun c => isLetter c || isDigit c) l with
  | Some l => Some (slice (input l) position0 (position l), l)
  | None => None
  end.

(** readNumber, lines 575-600. *)
Definition readNumber (l : Lexer) : option (GoString * Lexer) :=
  let position0 := position l in
  let l := if ch l =? chr "-" then readChar l else l in
  match readWhile (fuelOf l) isDigit l with
  | Some l =>
    let fraction :=
      if ch l =? chr "." then readWhile (fuelOf l) isDigit (readChar l)
      else Some l in
    match fraction with
    | Some l => Some (slice (input l) position0 (position l), l)
    | None => None
    end
  | None => None
  end.

(** One round of the [for] loop of Tokenize, lines 425-471: either the
    final result ([inl]) or the tokens and the lexer for the next round. *)
Definition Tokenize_round (tokens : list Token) (l : Lexer)
  : res (list Token + list Token * Lexer) :=
  match skipWhiteSpace l with
  | None => Timeout
  | Some l =>
    let emit (tok : Token) (l : Lexer) := Ok (inr (tokens ++ [tok], readChar l)) in
    let c := ch l in
    if c =? chr "{" then emit (mkToken TokenLeftBrace (bytes "{")) l
    else if c =? chr "}" then emit (mkToken TokenRightBrace (bytes "}")) l
    else if c =? chr ":" then emit (mkToken TokenColon (bytes ":")) l
    else if c =? chr "," then emit (mkToken TokenComma (bytes ",")) l
    else if c =? quote then
      match readString l with
      | Ok (str, l) => Ok (inr (tokens ++ [mkToken TokenString str], l))
      | Err e => Err e
      | Timeout => Timeout
      end
    else if c =? 0 then Ok (inl (tokens ++ [mkToken TokenEOF []]))
    else if isLetter c then
      match readLiteral l with
      | Some (literal, l) =>
        if GoString_eqb literal (bytes "true") then emit (mkToken TokenTrue literal) l
        else if GoString_eqb literal (bytes "false") then emit (mkToken TokenFalse literal) l
        else if GoString_eqb literal (bytes "null") then emit (mkToken TokenNull literal) l
        else Err (NewUnexpectedCharacterError (ch l))
      | None => Timeout
      end
    else if isDigit c || (c =? chr "-") then
      match readNumber l with
      | Some (num, l) => emit (mkToken TokenNumber num) l
      | None => Timeout
      end
    else Err (NewUnexpectedCharacterError (ch l))
  end.

(** Tokenize, lines 421-473. *)
Fixpoint Tokenize_loop (fuel : nat) (tokens : list Token) (l : Lexer)
  : res (list Token) :=
  match fuel with
  | O => Timeout
  | S fuel' =>
    match Tokenize_round tokens l with
    | Ok (inl tokens) => Ok tokens
    | Ok (inr (tokens, l)) => Tokenize_loop fuel' tokens l
    | Err e => Err e
    | Timeout => Timeout
    end
  end.

Definition Tokenize (l : Lexer) : res (list Token) :=
  Tokenize_loop (fuelOf l) [] l.

End Lexer2.

(** ** The parser: parseObject

    The parser file declares [Parser] and [parseObject]; the package [ast],
    the cursor helpers and [parseValue] are declared elsewhere. *)

#[global] Instance TokenType_eq_dec : EqDecision TokenType.
Proof. solve_decision. Defined.

Module ast.

(** [ast.Object]: the one field parseObject uses.  [obj.Pairs[key] = value]
    with a string key makes [Pairs] a Go map, whose zero value is the nil
    map: [None] is the nil map, [Some m] an allocated one. *)
Record Object (Value : Type) := mkObject {
  Pairs : option (gmap GoString Value)
}.
Arguments mkObject {Value} Pairs.
Arguments Pairs {Value} o.

(** Modelled from the spec: the value model of section 3, a tagged union
    over object, array, string, number (kept as its literal text), boolean
    and null; package [ast] is not part of the sources. *)
#[warnings="-register-all"]
Inductive Value :=
| VObject (o : Object Value)
| VArray (Elements : list Value)
| VString (s : GoString)
| VNumber (literal : GoString)
| VBoolean (b : bool)
| VNull.

End ast.

Module parser.

Abbreviation Token := Lexer1.Token.

(** The two error constructors parseObject calls, kept as constructors with
    the arguments of the call; [ErrUnexpectedToken] is the error of the
    parts modelled from the spec. *)
Inductive perror :=
| NewUnexpectedCharacterError (found : Token) (expected : TokenType)
| NewUnexpectedTokenError (found : Token) (expected : TokenType)
| ErrUnexpectedToken (found : Token) (expected : list TokenType).

(** What a call of a parser method does: it returns a value, returns an
    error, or panics; [Timeout] is the model's loop running out of fuel. *)
Inductive result (A : Type) :=
| Return (a : A)
| Fail (e : perror)
| Panic (message : string)
| Timeout.
Arguments Return {A} a.
Arguments Fail {A} e.
Arguments Panic {A} message.
Arguments Timeout {A}.

(** Parser, lines 8-11. *)
Record Parser := mkParser {
  tokens : list Token;
  current : nat
}.

(** Modelled from the spec: the cursor helpers [peek], [nextToken],
    [peekTypeIs] and [expectCurrent] are not part of the sources.  Section 3
    makes the cursor an index into the token sequence, and section 4.2 has
    the parser inspect the upcoming token before it consumes it: [peek] is
    the token under the cursor (past the end, an end-of-input token),
    [nextToken] moves the cursor by one, and both tests compare the type of
    that token without consuming it (parseObject calls [nextToken] itself
    after each successful test). *)
Definition peek (p : Parser) : Token :=
  nth (current p) (tokens p) (Lexer1.mkToken TokenEOF [] 0 0).

Definition nextToken (p : Parser) : Parser :=
  mkParser (tokens p) (S (current p)).

Definition peekTypeIs (p : Parser) (t : TokenType) : bool :=
  bool_decide (Lexer1.Type_ (peek p) = t).

Definition expectCurrent (p : Parser) (t : TokenType) : bool :=
  bool_decide (Lexer1.Type_ (peek p) = t).

Section ParseObject.

Context {Value : Type}.

(** [p.parseValue()]: its result and the parser it leaves. *)
Variable parseValue : Parser -> result Value * Parser.

(** [obj.Pairs[key] = value], line 40: assignment to an entry of a nil map
    panics, on an allocated map it overwrites. *)
Definition mapassign (obj : ast.Object Value) (key : GoString) (value : Value)
  : result (ast.Object Value) :=
  match ast.Pairs obj with
  | None => Panic "assignment to entry in nil map"
  | Some m => Return (ast.mkObject (Some (<[key := value]> m)))
  end.

(** The [for] loop of lines 22-47; [Return obj] is the loop left through
    its condition or through [break]. *)
Fixpoint parseObject_loop (fuel : nat) (obj : ast.Object Value) (p : Parser)
  : result (ast.Object Value) * Parser :=
  match fuel with
  | O => (Timeout, p)
  | S fuel' =>
    if negb (peekTypeIs p TokenRightBrace) && negb (peekTypeIs p TokenEOF) then
      let keyToken := peek p in
      if negb (bool_decide (Lexer1.Type_ keyToken = TokenString)) then
        (Fail (NewUnexpectedTokenError keyToken TokenString), p)
      else
        let key := Lexer1.Literal keyToken in
        let p := nextToken p in
        if negb (expectCurrent p TokenColon) then
          (Fail (NewUnexpectedTokenError (peek p) TokenColon), p)
        else
          let p := nextToken p in
          match parseValue p with
          | (Return value, p) =>
            match mapassign obj key value with
            | Return obj =>
              if peekTypeIs p TokenComma
              then parseObject_loop fuel' obj (nextToken p)
              else (Return obj, p)
            | failed => (failed, p)
            end
          | (Fail err, p) => (Fail err, p)
          | (Panic message, p) => (Panic message, p)
          | (Timeout, p) => (Timeout, p)
          end
    else (Return obj, p)
  end.

(** Lines 16-53: parseObject once [obj] exists. *)
Definition parseObject_from (obj : ast.Object Value) (p : Parser)
  : result (ast.Object Value) * Parser :=
  if negb (expectCurrent p TokenLeftBrace) then
    (Fail (NewUnexpectedCharacterError (peek p) TokenLeftBrace), p)
  else
    let p := nextToken p in
    match parseObject_loop (S (length (tokens p))) obj p with
    | (Return obj, p) =>
      if negb (expectCurrent p TokenRightBrace) then
        (Fail (NewUnexpectedTokenError (peek p) TokenRightBrace), p)
      else (Return obj, p)
    | failed => failed
    end.

(** parseObject, lines 13-54: [obj := &ast.Object{}] leaves [Pairs] at its
    zero value. *)
Definition parseObject (p : Parser) : result (ast.Object Value) * Parser :=
  parseObject_from (ast.mkObject None) p.

(** Modelled from the spec: [parseArray] is not part of the sources.
    Section 4.2: it expects a left-bracket, then a loop of [parseValue]
    separated by commas (no trailing comma), then expects and consumes the
    closing right-bracket; the empty array is allowed. *)
Fixpoint parseArray_loop (fuel : nat) (elements : list Value) (p : Parser)
  : result (list Value) * Parser :=
  match fuel with
  | O => (Timeout, p)
  | S fuel' =>
    match parseValue p with
    | (Return value, p) =>
      if peekTypeIs p TokenComma
      then parseArray_loop fuel' (elements ++ [value]) (nextToken p)
      else (Return (elements ++ [value]), p)
    | (Fail err, p) => (Fail err, p)
    | (Panic message, p) => (Panic message, p)
    | (Timeout, p) => (Timeout, p)
    end
  end.

Definition parseArray (p : Parser) : result (list Value) * Parser :=
  if negb (expectCurrent p TokenLeftBracket) then
    (Fail (ErrUnexpectedToken (peek p) [TokenLeftBracket]), p)
  else
    let p := nextToken p in
    let loop :=
      if peekTypeIs p TokenRightBracket then (Return [], p)
      else parseArray_loop (S (length (tokens p))) [] p in
    match loop with
    | (Return elements, p) =>
      if negb (expectCurrent p TokenRightBracket) then
        (Fail (ErrUnexpectedToken (peek p) [TokenRightBracket]), p)
      else (Return elements, nextToken p)
    | failed => failed
    end.

End ParseObject.

(** Modelled from the spec: [parseValue] is not part of the sources.
    Section 4.2: it dispatches on the kind of the current token to
    parseObject, parseArray, or one of the scalar values, which consume
    their token; any other kind is an unexpected-token error.  [depth]
    bounds the nesting. *)
Fixpoint parseValue (depth : nat) (p : Parser) : result ast.Value * Parser :=
  match depth with
  | O => (Timeout, p)
  | S depth' =>
    let tok := peek p in
    match Lexer1.Type_ tok with
    | TokenLeftBrace =>
      match parseObject (parseValue depth') p with
      | (Return obj, p) => (Return (ast.VObject obj), p)
      | (Fail err, p) => (Fail err, p)
      | (Panic message, p) => (Panic message, p)
      | (Timeout, p) => (Timeout, p)
      end
    | TokenLeftBracket =>
      match parseArray (parseValue depth') p with
      | (Return elements, p) => (Return (ast.VArray elements), p)
      | (Fail err, p) => (Fail err, p)
      | (Panic message, p) => (Panic message, p)
      | (Timeout, p) => (Timeout, p)
      end
    | TokenString => (Return (ast.VString (Lexer1.Literal tok)), nextToken p)
    | TokenNumber => (Return (ast.VNumber (Lexer1.Literal tok)), nextToken p)
    | TokenTrue => (Return (ast.VBoolean true), nextToken p)
    | TokenFalse => (Return (ast.VBoolean false), nextToken p)
    | TokenNull => (Return ast.VNull, nextToken p)
    | _ =>
      (Fail (ErrUnexpectedToken tok
               [TokenLeftBrace; TokenLeftBracket; TokenString; TokenNumber;
                TokenTrue; TokenFalse; TokenNull]), p)
    end
  end.

End parser.

(** ** Inputs and notions used in the statements *)

(** The text between two double quotes. *)
Definition quoted (body : GoString) : GoString := quote :: body ++ [quote].

(** [tokenize] of the first and of the second version. *)
Definition tokenize1 (Digit : Z -> bool) (text : GoString) : res (list Lexer1.Token) :=
  Lexer1.Tokenize Digit (Lexer1.NewLexer text).

Definition tokenize2 (text : GoString) : res (list Lexer2.Token) :=
  Lexer2.Tokenize (Lexer2.NewLexer text).

(** The token sequence of [{"a":1,"a":2}] and of [{"a":1,}], with the
    position of the first character of each token. *)
Definition tok (t : TokenType) (literal : string) (column : Z) : Lexer1.Token :=
  Lexer1.mkToken t (bytes literal) 1 column.

Definition tokens_duplicate_key : list Lexer1.Token :=
  [tok TokenLeftBrace "{" 1; tok TokenString "a" 2; tok TokenColon ":" 5;
   tok TokenNumber "1" 6; tok TokenComma "," 7; tok TokenString "a" 8;
   tok TokenColon ":" 11; tok TokenNumber "2" 12; tok TokenRightBrace "}" 13;
   tok TokenEOF "" 14].

Definition tokens_trailing_comma : list Lexer1.Token :=
  [tok TokenLeftBrace "{" 1; tok TokenString "a" 2; tok TokenColon ":" 5;
   tok TokenNumber "1" 6; tok TokenComma "," 7; tok TokenRightBrace "}" 8;
   tok TokenEOF "" 9].

(** A [\uXXXX] escape, given by its four digits; its text, the value of
    a hexadecimal digit, and the code point the four digits denote. *)
Definition escape : Type := Z * Z * Z * Z.

Definition escape_text (e : escape) : GoString :=
  let '(h1, h2, h3, h4) := e in [backslash; chr "u"; h1; h2; h3; h4].

Definition hexVal (c : Z) : Z :=
  match hexDigitValue c with Some d => d | None => 0 end.

Definition codePoint (e : escape) : Z :=
  let '(h1, h2, h3, h4) := e in
  ((hexVal h1 * 16 + hexVal h2) * 16 + hexVal h3) * 16 + hexVal h4.

Definition escape_ok (e : escape) : Prop :=
  let '(h1, h2, h3, h4) := e in
  Lexer2.isHexDigit h1 = true /\ Lexer2.isHexDigit h2 = true
  /\ Lexer2.isHexDigit h3 = true /\ Lexer2.isHexDigit h4 = true.

(** The pieces of a string literal's body that the statements speak about:
    a character that is written as it stands, or a [\uXXXX] escape; the
    text of a piece and the byte the second version decodes it to. *)
Inductive piece :=
| Plain (c : Z)
| Escape (e : escape).

Definition piece_text (x : piece) : GoString :=
  match x with
  | Plain c => [c]
  | Escape e => escape_text e
  end.

Definition pieces_text (xs : list piece) : GoString :=
  concat (map piece_text xs).

Definition piece_ok (x : piece) : Prop :=
  match x with
  | Plain c => c <> quote /\ c <> backslash /\ c <> 0
  | Escape e => escape_ok e
  end.

Definition piece_byte (x : piece) : Z :=
  match x with
  | Plain c => c
  | Escape e => codePoint e mod 256
  end.

(** The second version's lexer when its current character is the byte at
    index [k] of the input (past the end, the character 0). *)
Definition at_index (inp : GoString) (k : nat) : Lexer2.Lexer :=
  Lexer2.mkLexer inp k (S k) (nth k inp 0).

(** ** Notions for the statements about the second version's lexemes *)

(** The byte readString writes for the escape [\c] (lines 499-514). *)
Definition simple_escape (c : Z) : option Z :=
  if c =? quote then Some quote
  else if c =? backslash then Some backslash
  else if c =? chr "/" then Some (chr "/")
  else if c =? chr "b" then Some 8
  else if c =? chr "f" then Some 12
  else if c =? chr "n" then Some 10
  else if c =? chr "r" then Some 13
  else if c =? chr "t" then Some 9
  else None.

(** The body of a string literal as a list of items: a piece, or a
    one-character escape [\c]. *)
Inductive item :=
| Piece (x : piece)
| Simple (c : Z).

Definition item_text (x : item) : GoString :=
  match x with
  | Piece x => piece_text x
  | Simple c => [backslash; c]
  end.

Definition items_text (xs : list item) : GoString :=
  concat (map item_text xs).

Definition item_ok (x : item) : Prop :=
  match x with
  | Piece x => piece_ok x
  | Simple c => simple_escape c <> None
  end.

Definition item_byte (x : item) : Z :=
  match x with
  | Piece x => piece_byte x
  | Simple c => match simple_escape c with Some b => b | None => 0 end
  end.

(** The four punctuation tokens of the second version. *)
Inductive punct := PLeftBrace | PRightBrace | PColon | PComma.

Definition punct_char (p : punct) : Z :=
  match p with
  | PLeftBrace => chr "{"
  | PRightBrace => chr "}"
  | PColon => chr ":"
  | PComma => chr ","
  end.

Definition punct_type (p : punct) : TokenType :=
  match p with
  | PLeftBrace => TokenLeftBrace
  | PRightBrace => TokenRightBrace
  | PColon => TokenColon
  | PComma => TokenComma
  end.

(** The three keywords. *)
Inductive keyword := KTrue | KFalse | KNull.

Definition keyword_text (k : keyword) : GoString :=
  match k with
  | KTrue => bytes "true"
  | KFalse => bytes "false"
  | KNull => bytes "null"
  end.

Definition keyword_type (k : keyword) : TokenType :=
  match k with
  | KTrue => TokenTrue
  | KFalse => TokenFalse
  | KNull => TokenNull
  end.

(** The texts readNumber of the second version reads as one number: an
    optional minus, digits, and optionally a point with digits; the text
    starts with a minus or a digit. *)
Record number := mkNumber {
  negative : bool;
  integer : GoString;
  fraction : option GoString
}.

Definition number_text (n : number) : GoString :=
  (if negative n then [chr "-"] else [])
  ++ integer n
  ++ match fraction n with Some fs => chr "." :: fs | None => [] end.

Definition all_digits (ds : GoString) : Prop :=
  Forall (fun c => Lexer2.isDigit c = true) ds.

Definition number_ok (n : number) : Prop :=
  all_digits (integer n)
  /\ match fraction n with Some fs => all_digits fs | None => True end
  /\ (negative n = true \/ integer n <> []).

(** A character that ends the number: no digit, and no point when the
    number has no fraction yet. *)
Definition ends_number (n : number) (c : Z) : Prop :=
  Lexer2.isDigit c = false
  /\ match fraction n with Some _ => True | None => c <> chr "." end.

(** A character that ends a run of letters and digits. *)
Definition ends_word (c : Z) : Prop :=
  Lexer2.isLetter c = false /\ Lexer2.isDigit c = false.

(** A run of letters and digits. *)
Definition all_word (run : GoString) : Prop :=
  Forall (fun c => Lexer2.isLetter c || Lexer2.isDigit c = true) run.

(** A lexeme of the second version: punctuation, a string literal, or a
    number or keyword together with the character that follows it. *)
Inductive lexeme :=
| LPunct (p : punct)
| LString (body : list item)
| LNumber (n : number) (follow : Z)
| LKeyword (k : keyword) (follow : Z).

Definition lexeme_text (x : lexeme) : GoString :=
  match x with
  | LPunct p => [punct_char p]
  | LString body => quoted (items_text body)
  | LNumber n follow => number_text n ++ [follow]
  | LKeyword k follow => keyword_text k ++ [follow]
  end.

Definition lexeme_ok (x : lexeme) : Prop :=
  match x with
  | LPunct _ => True
  | LString body => Forall item_ok body
  | LNumber n follow => number_ok n /\ ends_number n follow
  | LKeyword _ follow => ends_word follow
  end.

Definition lexeme_token (x : lexeme) : Lexer2.Token :=
  match x with
  | LPunct p => Lexer2.mkToken (punct_type p) [punct_char p]
  | LString body => Lexer2.mkToken TokenString (map item_byte body)
  | LNumber n _ => Lexer2.mkToken TokenNumber (number_text n)
  | LKeyword k _ => Lexer2.mkToken (keyword_type k) (keyword_text k)
  end.

Definition all_space (ws : GoString) : Prop :=
  Forall (fun c => Lexer2.isWhiteSpace c = true) ws.

(** Lexemes, each after a run of whitespace. *)
Definition spaced_text (xs : list (GoString * lexeme)) : GoString :=
  concat (map (fun x => fst x ++ lexeme_text (snd x)) xs).

Definition spaced_ok (xs : list (GoString * lexeme)) : Prop :=
  Forall (fun x => all_space (fst x) /\ lexeme_ok (snd x)) xs.

(** A character on which no production of the second version starts. *)
Definition starts_nothing (c : Z) : Prop :=
  Lexer2.isWhiteSpace c = false
  /\ c <> chr "{" /\ c <> chr "}" /\ c <> chr ":" /\ c <> chr ","
  /\ c <> quote /\ c <> 0
  /\ Lexer2.isLetter c = false /\ Lexer2.isDigit c = false /\ c <> chr "-".

Definition all_hex (hs : GoString) : Prop :=
  Forall (fun c => Lexer2.isHexDigit c = true) hs.

Definition lexeme_tokens (xs : list (GoString * lexeme)) : list Lexer2.Token :=
  map (fun x => lexeme_token (snd x)) xs.

(** ** Notions for the statements about the first version *)

(** The six punctuation tokens of the first version. *)
Inductive punct1 :=
| QLeftBrace | QRightBrace | QLeftBracket | QRightBracket | QColon | QComma.

Definition punct1_char (p : punct1) : Z :=
  match p with
  | QLeftBrace => chr "{"
  | QRightBrace => chr "}"
  | QLeftBracket => chr "["
  | QRightBracket => chr "]"
  | QColon => chr ":"
  | QComma => chr ","
  end.

Definition punct1_type (p : punct1) : TokenType :=
  match p with
  | QLeftBrace => TokenLeftBrace
  | QRightBrace => TokenRightBrace
  | QLeftBracket => TokenLeftBracket
  | QRightBracket => TokenRightBracket
  | QColon => TokenColon
  | QComma => TokenComma
  end.

(** The first version's lexer after NewLexer and [j] more calls of readChar
    inside an input whose last character is [b]: the current character is
    [b], on line 1. *)
Definition after_reads (inp : GoString) (b : Z) (j : nat) : Lexer1.Lexer :=
  Lexer1.mkLexer inp (2 * j + 1) (2 * j + 2) b 1 (Z.of_nat (S j)).

(** The lexer after the call of readChar that ran past the end. *)
Definition after_end (inp : GoString) (j : nat) : Lexer1.Lexer :=
  Lexer1.mkLexer inp (2 * j + 2) (2 * j + 3) 0 1 (Z.of_nat (S j)).

(** An ASCII character on which no production of the first version starts. *)
Definition starts_nothing1 (c : Z) : Prop :=
  0 < c < 128 /\ IsSpace c = false
  /\ c <> chr "{" /\ c <> chr "}" /\ c <> chr "[" /\ c <> chr "]"
  /\ c <> chr ":" /\ c <> chr "," /\ c <> quote
  /\ c <> chr "t" /\ c <> chr "f" /\ c <> chr "n"
  /\ c <> chr "-" /\ ~ (48 <= c <= 57).

(** The lexer of the first version on the input [inp], whose last
    character is [b], after NewLexer and any number of calls of readChar:
    the current character is [b] or, past the end, 0. *)
Definition reached (inp : GoString) (b : Z) (l : Lexer1.Lexer) : Prop :=
  Lexer1.input l = inp
  /\ (Lexer1.ch l = 0
      \/ (Lexer1.ch l = b /\ (Lexer1.readPosition l <= length inp + 1)%nat)).

(** A token that is no string or number, or whose literal is empty. *)
Definition literal_empty (t : Lexer1.Token) : Prop :=
  match Lexer1.Type_ t with
  | TokenString | TokenNumber => Lexer1.Literal t = []
  | _ => True
  end.

(** The errors Tokenize of the first version returns on a text that ends in
    an ASCII character: of the eight error returns of readString and
    readUnicode only the first one below, of the three of readNumber only
    the one for the minus. *)
Inductive tokenize1_error : error -> Prop :=
| error_unterminated :
    tokenize1_error (Errorf "unterminated string" [])
| error_true (line column : Z) :
    tokenize1_error
      (Errorf "Lexer error at line %d, column %d: invalid token starting with 't'"
              [AInt line; AInt column])
| error_false (line column : Z) :
    tokenize1_error
      (Errorf "Lexer error at line %d, column %d: invalid token starting with 'f'"
              [AInt line; AInt column])
| error_null (line column : Z) :
    tokenize1_error
      (Errorf "Lexer error at line %d, column %d: invalid token starting with 'n'"
              [AInt line; AInt column])
| error_minus (line column : Z) :
    tokenize1_error
      (Errorf "Lexer error at line %d, column %d: %v"
              [AInt line; AInt column;
               AStr (bytes "invalid number format: expected digit after '-'")])
| error_character (c line column : Z) :
    tokenize1_error
      (Errorf "Lexer error at line %d, column %d: unexpected character: %c"
              [AInt c; AInt line; AInt column]).

(** ** Notions for the statements about parseObject *)

Section Pairs.

Context {Value : Type}.
Variable parseValue : parser.Parser -> parser.result Value * parser.Parser.

(** A pair stands at [p]: a string token with literal [key], a colon, and
    a value that [parseValue] returns, leaving the parser [p'] on the same
    tokens and not before the value. *)
Definition pair_at (p : parser.Parser) (key : GoString) (value : Value)
    (p' : parser.Parser) : Prop :=
  Lexer1.Type_ (parser.peek p) = TokenString
  /\ Lexer1.Literal (parser.peek p) = key
  /\ Lexer1.Type_ (parser.peek (parser.nextToken p)) = TokenColon
  /\ parseValue (parser.nextToken (parser.nextToken p)) = (parser.Return value, p')
  /\ parser.tokens p' = parser.tokens p
  /\ (parser.current (parser.nextToken (parser.nextToken p)) <= parser.current p')%nat.

(** The pairs [kvs] stand at [p], with commas between them; the loop of
    parseObject leaves them at [p']: after the last value when no comma
    follows it, after the comma when a right-brace or the end of the input
    follows the comma. *)
Inductive pairs_from : parser.Parser -> list (GoString * Value) -> parser.Parser -> Prop :=
| pairs_last p key value p' :
    pair_at p key value p' ->
    Lexer1.Type_ (parser.peek p') <> TokenComma ->
    pairs_from p [(key, value)] p'
| pairs_trailing p key value p' :
    pair_at p key value p' ->
    Lexer1.Type_ (parser.peek p') = TokenComma ->
    Lexer1.Type_ (parser.peek (parser.nextToken p')) = TokenRightBrace
    \/ Lexer1.Type_ (parser.peek (parser.nextToken p')) = TokenEOF ->
    pairs_from p [(key, value)] (parser.nextToken p')
| pairs_more p key value p' kvs p'' :
    pair_at p key value p' ->
    Lexer1.Type_ (parser.peek p') = TokenComma ->
    pairs_from (parser.nextToken p') kvs p'' ->
    pairs_from p ((key, value) :: kvs) p''.

(** The map after the pairs were stored in order. *)
Fixpoint store_pairs (m : gmap GoString Value) (kvs : list (GoString * Value))
  : gmap GoString Value :=
  match kvs with
  | [] => m
  | (key, value) :: kvs => store_pairs (<[key := value]> m) kvs
  end.

(** The value of the last pair with key [k]. *)
Fixpoint last_value (k : GoString) (kvs : list (GoString * Value)) : option Value :=
  match kvs with
  | [] => None
  | (key, value) :: kvs =>
    match last_value k kvs with
    | Some v => Some v
    | None => if decide (key = k) then Some value else None
    end
  end.

End Pairs.

(** ** Inputs of the examples *)

(** The lexemes of [{ "k\n":-1.5,true }], where the comma is the character
    that ends the number and the space the one that ends the keyword. *)
Definition example_lexemes : list (GoString * lexeme) :=
  [([], LPunct PLeftBrace);
   ([chr " "], LString [Piece (Plain (chr "k")); Simple (chr "n")]);
   ([], LPunct PColon);
   ([], LNumber (mkNumber true [chr "1"] (Some [chr "5"])) (chr ","));
   ([], LKeyword KTrue (chr " "));
   ([], LPunct PRightBrace)].

Definition example_body : list item :=
  [Piece (Plain (chr "a")); Simple (chr "t");
   Piece (Escape (chr "0", chr "0", chr "e", chr "9"))].

Definition tokens_empty_object : list Lexer1.Token :=
  [tok TokenLeftBrace "{" 1; tok TokenRightBrace "}" 2; tok TokenEOF "" 3].

Definition tokens_unclosed_object : list Lexer1.Token :=
  [tok TokenLeftBrace "{" 1; tok TokenEOF "" 2].

Definition tokens_comma_first : list Lexer1.Token :=
  [tok TokenLeftBrace "{" 1; tok TokenComma "," 2; tok TokenRightBrace "}" 3;
   tok TokenEOF "" 4].

Definition tokens_no_colon : list Lexer1.Token :=
  [tok TokenLeftBrace "{" 1; tok TokenString "a" 2; tok TokenNumber "1" 6;
   tok TokenRightBrace "}" 7; tok TokenEOF "" 8].

Definition tokens_no_value : list Lexer1.Token :=
  [tok TokenLeftBrace "{" 1; tok TokenString "a" 2; tok TokenColon ":" 5;
   tok TokenRightBrace "}" 6; tok TokenEOF "" 7].

(** ** The first version: what readChar reads *)

Section Lexer1_facts.

Variable Digit : Z -> bool.

(** utf8.DecodeLastRuneInString on a text that ends in an ASCII byte. *)
Lemma DecodeLastRuneInString_ascii (s : GoString) (b : Z) :
  0 <= b < 0x80 -> DecodeLastRuneInString (s ++ [b]) = (b, 1%nat).
Proof.
  intros Hb. unfold DecodeLastRuneInString, byteAt.
  rewrite length_app. cbn [length].
  replace (Z.of_nat (length s + 1) =? 0) with false by (symmetry; apply Z.eqb_neq; lia).
  replace (Z.to_nat (Z.of_nat (length s + 1) - 1)) with (length s) by lia.
  rewrite nth_middle.
  replace (b <? 128) with true by (symmetry; apply Z.ltb_lt; lia).
  reflexivity.
Qed.

(** What readChar reads: inside the input it is the last character of the
    input, whatever the position, and the position moves by two. *)
Lemma readChar_reads_last (l : Lexer1.Lexer) (s : GoString) (b : Z) :
  Lexer1.input l = s ++ [b] -> 0 <= b < 0x80 ->
  (Lexer1.readPosition l < length (Lexer1.input l))%nat ->
  Lexer1.ch (Lexer1.readChar l) = b
  /\ Lexer1.readPosition (Lexer1.readChar l) = (Lexer1.readPosition l + 2)%nat.
Proof.
  intros Hin Hb Hlt. unfold Lexer1.readChar.
  destruct (length (Lexer1.input l) <=? Lexer1.readPosition l)%nat eqn:E;
    [apply Nat.leb_le in E; lia |].
  rewrite Hin in *. rewrite length_app in Hlt. cbn [length] in Hlt.
  rewrite skipn_app.
  replace (Lexer1.readPosition l - length s)%nat with 0%nat by lia.
  cbn [skipn]. rewrite DecodeLastRuneInString_ascii by exact Hb.
  destruct (b =? chr "010"); cbn; split; try reflexivity; lia.
Qed.

Lemma readChar_past_end (l : Lexer1.Lexer) :
  (length (Lexer1.input l) <= Lexer1.readPosition l)%nat ->
  Lexer1.ch (Lexer1.readChar l) = 0.
Proof.
  intros H. unfold Lexer1.readChar.
  apply Nat.leb_le in H. rewrite H. reflexivity.
Qed.

(** readNumber entered on a digit returns the empty literal and leaves the
    lexer where it was: no line of it writes or consumes an integer digit. *)
Lemma readNumber_on_digit (l : Lexer1.Lexer) :
  Lexer1.IsDigit Digit (Lexer1.ch l) = true ->
  Lexer1.readNumber Digit l = (Ok [], l).
Proof.
  intros H. unfold Lexer1.readNumber, Lexer1.consumeMinus.
  assert (Hne : forall c, c <= MaxLatin1 -> (c < 48 \/ 57 < c) ->
                          (Lexer1.ch l =? c) = false).
  { intros c Hc Hout. apply Z.eqb_neq. intros Heq.
    unfold Lexer1.IsDigit in H. rewrite Heq in H.
    replace (c <=? MaxLatin1) with true in H by (symmetry; apply Z.leb_le; exact Hc).
    change (chr "0") with 48 in H. change (chr "9") with 57 in H.
    apply andb_true_iff in H as [H1 H2]. apply Z.leb_le in H1, H2. lia. }
  assert (Hminus : (Lexer1.ch l =? chr "-") = false)
    by (apply Hne; [apply Z.leb_le | left; apply Z.ltb_lt]; reflexivity).
  assert (Hpoint : (Lexer1.ch l =? chr ".") = false)
    by (apply Hne; [apply Z.leb_le | left; apply Z.ltb_lt]; reflexivity).
  assert (He : (Lexer1.ch l =? chr "e") = false)
    by (apply Hne; [apply Z.leb_le | right; apply Z.ltb_lt]; reflexivity).
  assert (HE : (Lexer1.ch l =? chr "E") = false)
    by (apply Hne; [apply Z.leb_le | right; apply Z.ltb_lt]; reflexivity).
  rewrite Hminus. cbv zeta. rewrite Hminus. cbv iota beta.
  rewrite H. cbn [negb]. rewrite Hpoint. cbv iota beta.
  rewrite He, HE. reflexivity.
Qed.

Lemma readChar_input (l : Lexer1.Lexer) :
  Lexer1.input (Lexer1.readChar l) = Lexer1.input l.
Proof.
  unfold Lexer1.readChar.
  destruct (length (Lexer1.input l) <=? Lexer1.readPosition l)%nat; [reflexivity |].
  destruct (DecodeLastRuneInString _) as [r size].
  destruct (r =? chr "010"); reflexivity.
Qed.

(** skipWhitespace on a text that ends in a space runs to the end of the
    input, where the current character is 0. *)
Lemma readWhile_trailing_space (s : GoString) (fuel : nat) :
  forall l : Lexer1.Lexer,
    Lexer1.input l = s ++ [32] ->
    Lexer1.ch l = 32 \/ Lexer1.ch l = 0 ->
    (length (Lexer1.input l) - Lexer1.readPosition l + 2 <= fuel)%nat ->
    exists l', Lexer1.readWhile fuel IsSpace l = Some l' /\ Lexer1.ch l' = 0.
Proof.
  induction fuel as [| fuel IH]; intros l Hin Hch Hfuel; [lia |].
  cbn [Lexer1.readWhile]. destruct Hch as [Hch | Hch]; rewrite Hch.
  2: { exists l. split; [reflexivity | exact Hch]. }
  change (IsSpace 32) with true. cbv iota.
  destruct (Nat.lt_ge_cases (Lexer1.readPosition l) (length (Lexer1.input l)))
    as [Hlt | Hge].
  - destruct (readChar_reads_last l s 32 Hin ltac:(lia) Hlt) as [Hc Hp].
    apply IH.
    + rewrite readChar_input. exact Hin.
    + left. exact Hc.
    + rewrite readChar_input, Hp. lia.
  - destruct fuel as [| fuel]; [lia |].
    cbn [Lexer1.readWhile]. rewrite (readChar_past_end l Hge).
    exists (Lexer1.readChar l). split; [reflexivity | apply readChar_past_end, Hge].
Qed.

(** No text that ends in a space is tokenized: Tokenize returns the
    unexpected-character error for the character 0. *)
Lemma trailing_space_always_rejected (s : GoString) :
  exists line column : Z,
    tokenize1 Digit (s ++ [32])
    = Err (Errorf "Lexer error at line %d, column %d: unexpected character: %c"
                  [AInt 0; AInt line; AInt column]).
Proof.
  unfold tokenize1, Lexer1.Tokenize.
  set (l0 := Lexer1.NewLexer (s ++ [32])).
  assert (Hin : Lexer1.input l0 = s ++ [32]) by apply readChar_input.
  assert (Hch : Lexer1.ch l0 = 32).
  { apply (readChar_reads_last (Lexer1.mkLexer (s ++ [32]) 0 0 0 1 0) s 32);
      [reflexivity | lia |]. cbn. rewrite length_app. cbn. lia. }
  unfold Lexer1.fuelOf. cbn [Lexer1.Tokenize_loop]. rewrite Hch.
  change (32 =? 0) with false. cbv iota.
  unfold Lexer1.Tokenize_round, Lexer1.skipWhitespace, Lexer1.fuelOf.
  destruct (readWhile_trailing_space s (S (S (length (Lexer1.input l0)))) l0 Hin
              (or_introl Hch) ltac:(lia)) as (l' & -> & Hl').
  rewrite Hl'. exists (Lexer1.line l'), (Lexer1.column l'). reflexivity.
Qed.

(** A round of Tokenize entered on an ASCII digit appends a number token
    whose literal is empty, wherever the lexer stands. *)
Lemma Tokenize_round_on_digit (tokens : list Lexer1.Token) (l : Lexer1.Lexer) :
  48 <= Lexer1.ch l <= 57 ->
  Lexer1.Tokenize_round Digit tokens l
  = Ok (tokens ++ [Lexer1.mkToken TokenNumber [] (Lexer1.line l) (Lexer1.column l)],
        Lexer1.readChar l).
Proof.
  intros Hd.
  assert (Hne : forall c, c < 48 \/ 57 < c -> (Lexer1.ch l =? c) = false)
    by (intros c Hc; apply Z.eqb_neq; lia).
  assert (Hdigit : Lexer1.IsDigit Digit (Lexer1.ch l) = true).
  { unfold Lexer1.IsDigit, MaxLatin1.
    replace (Lexer1.ch l <=? 255) with true by (symmetry; apply Z.leb_le; lia).
    change (chr "0") with 48. change (chr "9") with 57.
    apply andb_true_iff. split; apply Z.leb_le; lia. }
  assert (Hspace : IsSpace (Lexer1.ch l) = false).
  { unfold IsSpace, MaxLatin1.
    replace ((0 <=? Lexer1.ch l) && (Lexer1.ch l <=? 255)) with true
      by (symmetry; apply andb_true_iff; split; apply Z.leb_le; lia).
    rewrite !Hne by lia. reflexivity. }
  unfold Lexer1.Tokenize_round, Lexer1.skipWhitespace, Lexer1.fuelOf.
  cbn [Lexer1.readWhile]. rewrite Hspace. cbv zeta.
  rewrite (Hne (chr "{")), (Hne (chr "}")), (Hne (chr "[")), (Hne (chr "]")),
    (Hne (chr ":")), (Hne (chr ",")), (Hne quote), (Hne (chr "t")),
    (Hne (chr "f")), (Hne (chr "n"))
    by first [left; reflexivity | right; reflexivity].
  unfold Lexer1.isStartOfNumber. rewrite Hdigit, orb_true_r.
  rewrite (readNumber_on_digit l Hdigit). reflexivity.
Qed.

(** C1 (first version).  Tokenizing [12] gives a number token whose
    literal is empty: readNumber never writes the integer digits (nor a
    leading minus) to its builder. *)
Theorem C1_number_literal_lost :
  tokenize1 Digit (bytes "12")
  = Ok [Lexer1.mkToken TokenNumber [] 1 1; Lexer1.mkToken TokenEOF [] 1 1].
Proof. vm_compute. reflexivity. Qed.

(** C2.  Tokenizing ["\uD83D\uDE00"]: the first version returns the error
    of an unterminated string, the second version a string token whose
    literal is the two bytes 0x3D and 0x00; neither yields U+1F600. *)
Theorem C2_surrogate_pair_not_combined :
  tokenize1 Digit (quoted (bytes "\uD83D\uDE00")) = Err (Errorf "unterminated string" [])
  /\ tokenize2 (quoted (bytes "\uD83D\uDE00"))
     = Ok [Lexer2.mkToken TokenString [0x3D; 0x00]; Lexer2.mkToken TokenEOF []]
  /\ EncodeRune 0x1F600 = [0xF0; 0x9F; 0x98; 0x80].
Proof. repeat split; vm_compute; reflexivity. Qed.

(** C5.  The second version tokenizes a bare [-] as a number token with
    literal [-], and the first version tokenizes [-.5] as two number tokens;
    no error is returned. *)
Theorem C5_malformed_number_accepted :
  tokenize2 (bytes "-")
  = Ok [Lexer2.mkToken TokenNumber (bytes "-"); Lexer2.mkToken TokenEOF []]
  /\ tokenize1 Digit (bytes "-.5")
     = Ok [Lexer1.mkToken TokenNumber [] 1 1; Lexer1.mkToken TokenNumber [] 1 2;
           Lexer1.mkToken TokenEOF [] 1 2].
Proof. split; vm_compute; reflexivity. Qed.

(** C6.  Tokenizing ["\uD83D"], a high surrogate with nothing after it,
    returns two empty string tokens and no error. *)
Theorem C6_lone_high_surrogate_accepted :
  tokenize1 Digit (quoted (bytes "\uD83D"))
  = Ok [Lexer1.mkToken TokenString [] 1 3; Lexer1.mkToken TokenString [] 1 4;
        Lexer1.mkToken TokenEOF [] 1 4].
Proof. vm_compute. reflexivity. Qed.

(** C7.  The text ["a"] is tokenized and parsed to a string value; the
    same text followed by one space is rejected by Tokenize. *)
Theorem C7_trailing_space_rejected :
  tokenize1 Digit (quoted (bytes "a"))
  = Ok [Lexer1.mkToken TokenString [] 1 2; Lexer1.mkToken TokenEOF [] 1 2]
  /\ fst (parser.parseValue 1
            (parser.mkParser
               [Lexer1.mkToken TokenString [] 1 2; Lexer1.mkToken TokenEOF [] 1 2] 0))
     = parser.Return (ast.VString [])
  /\ tokenize1 Digit (quoted (bytes "a") ++ bytes " ")
     = Err (Errorf "Lexer error at line %d, column %d: unexpected character: %c"
                   [AInt 0; AInt 1; AInt 2]).
Proof. repeat split; vm_compute; reflexivity. Qed.

(** C8.  The first version accepts the run of letters [tttruet] as the
    keyword true, and rejects the text [true] itself. *)
Theorem C8_garbled_keyword_accepted :
  tokenize1 Digit (bytes "tttruet")
  = Ok [Lexer1.mkToken TokenTrue (bytes "true") 1 1; Lexer1.mkToken TokenEOF [] 1 4]
  /\ tokenize1 Digit (bytes "true")
     = Err (Errorf "Lexer error at line %d, column %d: unexpected character: %c"
                   [AInt (chr "e"); AInt 1; AInt 1]).
Proof. split; vm_compute; reflexivity. Qed.

(** C9.  On the text [@] (character 64 at line 1, column 1) the message
    reports line 64, column 1 and the character U+0001: the three
    arguments of the format are in the order character, line, column. *)
Theorem C9_unexpected_character_message :
  tokenize1 Digit (bytes "@")
  = Err (Errorf "Lexer error at line %d, column %d: unexpected character: %c"
                [AInt (chr "@"); AInt 1; AInt 1])
  /\ Error (Errorf "Lexer error at line %d, column %d: unexpected character: %c"
                   [AInt (chr "@"); AInt 1; AInt 1])
     = bytes "Lexer error at line 64, column 1: unexpected character: " ++ [1].
Proof. split; vm_compute; reflexivity. Qed.

End Lexer1_facts.

(** ** parseObject *)

(** C3.  On the tokens of [{"a":1,"a":2}] parseObject panics at the first
    pair: the map of the fresh object is nil. *)
Theorem C3_duplicate_key_panics :
  fst (parser.parseObject (parser.parseValue 2)
         (parser.mkParser tokens_duplicate_key 0))
  = parser.Panic "assignment to entry in nil map".
Proof. vm_compute. reflexivity. Qed.

(** C4.  On the tokens of [{"a":1,}] parseObject returns no error: it
    panics at line 40, where the first pair is stored into the nil map of
    the fresh object.  The cursor is still on the comma: the comma and the
    right-brace after it are never examined. *)
Theorem C4_trailing_comma_panics :
  parser.parseObject (parser.parseValue 2) (parser.mkParser tokens_trailing_comma 0)
  = (parser.Panic "assignment to entry in nil map",
     parser.mkParser tokens_trailing_comma 4).
Proof. vm_compute. reflexivity. Qed.

Section ParseObject_facts.

Import parser.

Context {Value : Type}.
Variable pv : Parser -> result Value * Parser.

Lemma peekTypeIs_eq (p : Parser) (t u : TokenType) :
  Lexer1.Type_ (peek p) = t -> peekTypeIs p u = bool_decide (t = u).
Proof. intros <-. reflexivity. Qed.

Lemma expectCurrent_eq (p : Parser) (t u : TokenType) :
  Lexer1.Type_ (peek p) = t -> expectCurrent p u = bool_decide (t = u).
Proof. intros <-. reflexivity. Qed.

(** On an allocated map the assignment of line 40 overwrites: the key maps
    to the value stored last, other keys keep theirs. *)
Lemma mapassign_allocated (m : gmap GoString Value) (key : GoString) (value : Value) :
  mapassign (ast.mkObject (Some m)) key value
  = Return (ast.mkObject (Some (<[key := value]> m))).
Proof. reflexivity. Qed.

Lemma mapassign_last_wins (m : gmap GoString Value) (key : GoString)
    (value1 value2 : Value) (obj1 obj2 : ast.Object Value) :
  mapassign (ast.mkObject (Some m)) key value1 = Return obj1 ->
  mapassign obj1 key value2 = Return obj2 ->
  exists m2, ast.Pairs obj2 = Some m2 /\ m2 !! key = Some value2.
Proof.
  intros [= <-] [= <-]. eexists. split; [reflexivity |]. apply lookup_insert_eq.
Qed.

Lemma mapassign_other_key (m : gmap GoString Value) (key key' : GoString)
    (value : Value) (obj : ast.Object Value) :
  mapassign (ast.mkObject (Some m)) key value = Return obj -> key <> key' ->
  exists m', ast.Pairs obj = Some m' /\ m' !! key' = m !! key'.
Proof.
  intros [= <-] Hne. eexists. split; [reflexivity |]. apply lookup_insert_ne, Hne.
Qed.

(** The loop started on the nil map never stores a pair: it leaves with
    the nil map or does not return an object. *)
Lemma parseObject_loop_nil (fuel : nat) (p p' : Parser) (obj : ast.Object Value) :
  parseObject_loop pv fuel (ast.mkObject None) p = (Return obj, p') ->
  obj = ast.mkObject None.
Proof.
  destruct fuel as [| fuel]; cbn [parseObject_loop]; [discriminate |].
  destruct (negb (peekTypeIs p TokenRightBrace) && negb (peekTypeIs p TokenEOF)).
  2: { intros [= <- _]. reflexivity. }
  destruct (negb (bool_decide (Lexer1.Type_ (peek p) = TokenString))); [discriminate |].
  destruct (negb (expectCurrent (nextToken p) TokenColon)); [discriminate |].
  destruct (pv (nextToken (nextToken p))) as [[value | err | message |] p1];
    cbn; discriminate.
Qed.

(** Whenever parseObject returns an object, the object has no pair: its
    [Pairs] is the nil map of [&ast.Object{}]. *)
Lemma parseObject_no_pairs (p p' : Parser) (obj : ast.Object Value) :
  parseObject pv p = (Return obj, p') -> ast.Pairs obj = None.
Proof.
  unfold parseObject, parseObject_from.
  destruct (negb (expectCurrent p TokenLeftBrace)); [discriminate |].
  destruct (parseObject_loop pv _ _ _) as [[obj1 | err | message |] p1] eqn:E;
    try discriminate.
  apply parseObject_loop_nil in E. subst obj1.
  destruct (negb (expectCurrent p1 TokenRightBrace)); [discriminate |].
  intros [= <- _]. reflexivity.
Qed.

(** The loop stops at a right-brace and at the end of the input. *)
Lemma parseObject_loop_stop (fuel : nat) (obj : ast.Object Value) (p : Parser) :
  Lexer1.Type_ (peek p) = TokenRightBrace \/ Lexer1.Type_ (peek p) = TokenEOF ->
  parseObject_loop pv (S fuel) obj p = (Return obj, p).
Proof.
  intros [H | H]; simpl;
    rewrite (peekTypeIs_eq p _ TokenRightBrace H), (peekTypeIs_eq p _ TokenEOF H);
    reflexivity.
Qed.

(** One round of the loop on a pair that is followed by a comma, for an
    object whose map is allocated. *)
Lemma parseObject_loop_pair_comma (fuel : nat) (m : gmap GoString Value)
    (p p' : Parser) (value : Value) :
  Lexer1.Type_ (peek p) = TokenString ->
  Lexer1.Type_ (peek (nextToken p)) = TokenColon ->
  pv (nextToken (nextToken p)) = (Return value, p') ->
  Lexer1.Type_ (peek p') = TokenComma ->
  parseObject_loop pv (S fuel) (ast.mkObject (Some m)) p
  = parseObject_loop pv fuel
      (ast.mkObject (Some (<[Lexer1.Literal (peek p) := value]> m))) (nextToken p').
Proof.
  intros Hkey Hcolon Hvalue Hcomma. simpl.
  rewrite (peekTypeIs_eq p _ TokenRightBrace Hkey), (peekTypeIs_eq p _ TokenEOF Hkey).
  rewrite Hkey. simpl.
  rewrite (expectCurrent_eq _ _ TokenColon Hcolon). simpl.
  rewrite Hvalue. simpl.
  rewrite (peekTypeIs_eq p' _ TokenComma Hcomma). reflexivity.
Qed.

(** A token of the sequence lies under the cursor when its type is not the
    end of the input. *)
Lemma peek_in_range (toks : list Token) (i : nat) (t : TokenType) :
  Lexer1.Type_ (peek (mkParser toks i)) = t -> t <> TokenEOF ->
  (i < length toks)%nat.
Proof.
  intros H Ht. destruct (Nat.lt_ge_cases i (length toks)) as [Hlt | Hge]; [exact Hlt |].
  exfalso. apply Ht. rewrite <- H. unfold peek. simpl.
  rewrite nth_overflow by exact Hge. reflexivity.
Qed.

End ParseObject_facts.

(** Lines 16-53 on the tokens of [{"a":1,"a":2}], run on an object whose
    map is allocated: the key [a] maps to the value of its last occurrence. *)
Lemma parseObject_from_last_key_wins :
  parser.parseObject_from (parser.parseValue 2) (ast.mkObject (Some ∅))
    (parser.mkParser tokens_duplicate_key 0)
  = (parser.Return (ast.mkObject (Some {[ bytes "a" := ast.VNumber (bytes "2") ]})),
     parser.mkParser tokens_duplicate_key 8).
Proof. vm_compute. reflexivity. Qed.

(** ** The second version: [\uXXXX] escapes *)

Section Lexer2_facts.

Import Lexer2.

Lemma readChar_at_index (inp : GoString) (k : nat) :
  readChar (at_index inp k) = at_index inp (S k).
Proof.
  unfold readChar, at_index, byteAt. simpl.
  destruct (length inp <=? S k)%nat eqn:E; [| reflexivity].
  apply Nat.leb_le in E. rewrite nth_overflow by exact E. reflexivity.
Qed.

Lemma NewLexer_at_index (inp : GoString) : NewLexer inp = at_index inp 0.
Proof.
  unfold NewLexer, readChar, at_index, byteAt. simpl.
  destruct inp; reflexivity.
Qed.

Lemma nth_skipn_eq (inp l : GoString) (k j : nat) :
  skipn k inp = l -> nth (k + j) inp 0 = nth j l 0.
Proof.
  intros <-. revert inp. induction k as [| k IH]; intros inp; [reflexivity |].
  destruct inp as [| x inp]; simpl.
  - destruct j; reflexivity.
  - apply IH.
Qed.

Lemma skipn_more (inp pre rest : GoString) (k : nat) :
  skipn k inp = pre ++ rest -> skipn (k + length pre) inp = rest.
Proof.
  intros H. rewrite Nat.add_comm, <- skipn_skipn, H.
  rewrite skipn_app, skipn_all, Nat.sub_diag. reflexivity.
Qed.

Lemma isHexDigit_range (c : Z) :
  isHexDigit c = true ->
  (48 <= c <= 57) \/ (97 <= c <= 102) \/ (65 <= c <= 70).
Proof.
  unfold isHexDigit.
  change (chr "0") with 48; change (chr "9") with 57;
  change (chr "a") with 97; change (chr "f") with 102;
  change (chr "A") with 65; change (chr "F") with 70.
  rewrite !orb_true_iff, !andb_true_iff, !Z.leb_le. tauto.
Qed.

Lemma isHexDigit_value (c : Z) :
  isHexDigit c = true -> hexDigitValue c = Some (hexVal c).
Proof.
  intros H. apply isHexDigit_range in H. unfold hexVal, hexDigitValue.
  destruct ((48 <=? c) && (c <=? 57)) eqn:E1; [reflexivity |].
  destruct ((97 <=? c) && (c <=? 102)) eqn:E2; [reflexivity |].
  destruct ((65 <=? c) && (c <=? 70)) eqn:E3; [reflexivity |].
  exfalso. rewrite andb_false_iff, !Z.leb_gt in E1, E2, E3. lia.
Qed.

Lemma hexVal_range (c : Z) : isHexDigit c = true -> 0 <= hexVal c < 16.
Proof.
  intros H. apply isHexDigit_range in H. unfold hexVal, hexDigitValue.
  destruct ((48 <=? c) && (c <=? 57)) eqn:E1.
  { apply andb_true_iff in E1 as [? ?]. lia. }
  destruct ((97 <=? c) && (c <=? 102)) eqn:E2.
  { apply andb_true_iff in E2 as [? ?]. lia. }
  destruct ((65 <=? c) && (c <=? 70)) eqn:E3.
  { apply andb_true_iff in E3 as [? ?]. lia. }
  lia.
Qed.

Lemma EncodeRune_hexDigit (c : Z) : isHexDigit c = true -> EncodeRune c = [c].
Proof.
  intros H. apply isHexDigit_range in H. unfold EncodeRune.
  destruct (c <? 0) eqn:E1; [apply Z.ltb_lt in E1; lia |].
  destruct (c <=? 127) eqn:E2; [reflexivity | apply Z.leb_gt in E2; lia].
Qed.

(** readUnicode on four hexadecimal digits: the code point, and the lexer
    on the last digit. *)
Lemma readUnicode_digits (inp rest : GoString) (k : nat) (h1 h2 h3 h4 : Z) :
  escape_ok (h1, h2, h3, h4) ->
  skipn (S k) inp = h1 :: h2 :: h3 :: h4 :: rest ->
  readUnicode (at_index inp k)
  = Ok (codePoint (h1, h2, h3, h4), at_index inp (k + 4)).
Proof.
  intros (H1 & H2 & H3 & H4) Hin.
  assert (N1 : nth (S k) inp 0 = h1)
    by (rewrite <- (Nat.add_0_r (S k)); apply (nth_skipn_eq _ _ _ 0 Hin)).
  assert (N2 : nth (S (S k)) inp 0 = h2)
    by (replace (S (S k)) with (S k + 1)%nat by lia; apply (nth_skipn_eq _ _ _ 1 Hin)).
  assert (N3 : nth (S (S (S k))) inp 0 = h3)
    by (replace (S (S (S k))) with (S k + 2)%nat by lia; apply (nth_skipn_eq _ _ _ 2 Hin)).
  assert (N4 : nth (S (S (S (S k)))) inp 0 = h4)
    by (replace (S (S (S (S k)))) with (S k + 3)%nat by lia; apply (nth_skipn_eq _ _ _ 3 Hin)).
  unfold readUnicode. cbn [readUnicode_loop].
  rewrite !readChar_at_index. unfold at_index at 1 2 3 4 5 6 7 8. cbn [ch].
  rewrite N1, N2, N3, N4, H1, H2, H3, H4. cbn [negb].
  rewrite !EncodeRune_hexDigit by assumption. cbn [app].
  unfold Sscanf_04x. cbn [scanHex].
  rewrite !isHexDigit_value by assumption.
  replace (k + 4)%nat with (S (S (S (S k)))) by lia.
  unfold codePoint. do 2 f_equal. f_equal. ring.
Qed.

(** One round of the loop of readString on an escape [\u]: the byte that
    is written is [byte(unicodeChar)]. *)
Lemma readString_loop_unicode (fuel : nat) (sb : GoString) (l : Lexer) :
  ch l = backslash -> ch (readChar l) = chr "u" ->
  readString_loop (S fuel) sb l
  = match readUnicode (readChar l) with
    | Ok (unicodeChar, l') =>
      readString_loop fuel (sb ++ [to_byte unicodeChar]) (readChar l')
    | Err e => Err e
    | Timeout => Timeout
    end.
Proof. intros H1 H2. cbn [readString_loop]. rewrite H1, H2. reflexivity. Qed.

Lemma readString_loop_quote (fuel : nat) (sb : GoString) (l : Lexer) :
  ch l = quote -> readString_loop (S fuel) sb l = Ok (sb, readChar l).
Proof. intros H. cbn [readString_loop]. rewrite H. reflexivity. Qed.

Lemma to_byte_mod (x : Z) : to_byte x = x mod 256.
Proof. unfold to_byte. apply (Z.land_ones x 8). lia. Qed.

Lemma pieces_text_length (xs : list piece) :
  (length xs <= length (pieces_text xs))%nat.
Proof.
  induction xs as [| x xs IH]; [reflexivity |].
  unfold pieces_text in *. cbn [map concat length]. rewrite length_app.
  destruct x as [c | [[[h1 h2] h3] h4]]; cbn [piece_text escape_text length]; lia.
Qed.

Lemma readString_loop_plain (fuel : nat) (sb : GoString) (l : Lexer) :
  ch l <> quote -> ch l <> backslash -> ch l <> 0 ->
  readString_loop (S fuel) sb l = readString_loop fuel (sb ++ [ch l]) (readChar l).
Proof.
  intros H1 H2 H3. cbn [readString_loop].
  apply Z.eqb_neq in H1, H2, H3. rewrite H1, H2, H3. reflexivity.
Qed.

(** The step of C10 in any context: where the text at the current
    character is a [\uXXXX] escape, one round of readString's loop appends
    the single byte [codePoint mod 256] and moves past the escape. *)
Lemma readString_loop_escape (fuel : nat) (sb inp rest : GoString) (k : nat)
    (e : escape) :
  escape_ok e ->
  skipn k inp = escape_text e ++ rest ->
  readString_loop (S fuel) sb (at_index inp k)
  = readString_loop fuel (sb ++ [codePoint e mod 256]) (at_index inp (k + 6)).
Proof.
  destruct e as [[[h1 h2] h3] h4]. intros Hok Hin. cbn [escape_text app] in Hin.
  rewrite readString_loop_unicode.
  - rewrite readChar_at_index.
    rewrite (readUnicode_digits inp rest (S k) h1 h2 h3 h4 Hok).
    + rewrite readChar_at_index, to_byte_mod.
      replace (S (S k + 4)) with (k + 6)%nat by lia. reflexivity.
    + replace (S (S k)) with (k + 2)%nat by lia.
      apply (skipn_more inp [backslash; chr "u"] _ k Hin).
  - cbn [at_index ch]. rewrite <- (Nat.add_0_r k). apply (nth_skipn_eq _ _ _ 0 Hin).
  - rewrite readChar_at_index. cbn [at_index ch].
    replace (S k) with (k + 1)%nat by lia. apply (nth_skipn_eq _ _ _ 1 Hin).
Qed.

(** A run of pieces up to the closing quote. *)
Lemma readString_loop_pieces (xs : list piece) :
  forall (fuel : nat) (sb inp post : GoString) (k : nat),
    Forall piece_ok xs ->
    skipn k inp = pieces_text xs ++ quote :: post ->
    (length xs < fuel)%nat ->
    readString_loop fuel sb (at_index inp k)
    = Ok (sb ++ map piece_byte xs,
          at_index inp (S (k + length (pieces_text xs)))).
Proof.
  induction xs as [| x xs IH]; intros fuel sb inp post k Hok Hin Hfuel.
  - destruct fuel as [| fuel]; [inversion Hfuel |].
    rewrite readString_loop_quote.
    + rewrite readChar_at_index, app_nil_r. cbn [pieces_text map concat length].
      do 3 f_equal. lia.
    + cbn [at_index ch]. rewrite <- (Nat.add_0_r k). apply (nth_skipn_eq _ _ _ 0 Hin).
  - destruct fuel as [| fuel]; [inversion Hfuel |].
    inversion Hok as [| ? ? Hx Hxs]; subst.
    unfold pieces_text in Hin |- *. cbn [map concat] in Hin |- *.
    rewrite <- app_assoc in Hin.
    assert (Hnext : skipn (k + length (piece_text x)) inp
                    = concat (map piece_text xs) ++ quote :: post)
      by (apply (skipn_more _ _ _ _ Hin)).
    assert (Hstep : readString_loop (S fuel) sb (at_index inp k)
                    = readString_loop fuel (sb ++ [piece_byte x])
                        (at_index inp (k + length (piece_text x)))).
    { destruct x as [c | e].
      - cbn [piece_text app] in Hin. cbn [piece_ok] in Hx. destruct Hx as (H1 & H2 & H3).
        assert (Hc : ch (at_index inp k) = c)
          by (cbn [at_index ch]; rewrite <- (Nat.add_0_r k);
              apply (nth_skipn_eq _ _ _ 0 Hin)).
        rewrite readString_loop_plain by (rewrite Hc; assumption).
        rewrite Hc, readChar_at_index. cbn [piece_byte piece_text length].
        replace (k + 1)%nat with (S k) by lia. reflexivity.
      - cbn [piece_text] in Hin. cbn [piece_ok] in Hx.
        rewrite (readString_loop_escape fuel sb inp _ k e Hx Hin).
        destruct e as [[[h1 h2] h3] h4]. reflexivity. }
    rewrite Hstep.
    rewrite (IH fuel _ inp post _ Hxs Hnext) by (cbn [length] in Hfuel; lia).
    unfold pieces_text. cbn [map]. rewrite <- app_assoc, length_app. cbn [app].
    do 3 f_equal. lia.
Qed.

Lemma Tokenize_round_string (tokens : list Token) (l : Lexer) :
  ch l = quote ->
  Tokenize_round tokens l
  = match readString l with
    | Ok (str, l') => Ok (inr (tokens ++ [mkToken TokenString str], l'))
    | Err e => Err e
    | Timeout => Timeout
    end.
Proof.
  intros H. unfold Tokenize_round, skipWhiteSpace, fuelOf. cbn [readWhile].
  rewrite H. change (isWhiteSpace quote) with false. cbv iota.
  rewrite H. reflexivity.
Qed.

Lemma Tokenize_round_end (tokens : list Token) (l : Lexer) :
  ch l = 0 -> Tokenize_round tokens l = Ok (inl (tokens ++ [mkToken TokenEOF []])).
Proof.
  intros H. unfold Tokenize_round, skipWhiteSpace, fuelOf. cbn [readWhile].
  rewrite H. change (isWhiteSpace 0) with false. cbv iota.
  rewrite H. reflexivity.
Qed.

(** C10.  In the second version every [\uXXXX] escape of a string literal
    contributes exactly one byte to the token's literal, the low-order byte
    [codePoint mod 256] of its code point, whatever stands before or after
    it: a code point above 0xFF is truncated, and two surrogate escapes give
    two bytes. *)
Theorem C10_escape_low_byte (xs : list piece) :
  Forall piece_ok xs ->
  tokenize2 (quoted (pieces_text xs))
  = Ok [mkToken TokenString (map piece_byte xs); mkToken TokenEOF []].
Proof.
  intros Hok. unfold tokenize2, Tokenize. rewrite NewLexer_at_index.
  set (inp := quoted (pieces_text xs)).
  assert (Hlen : length inp = S (S (length (pieces_text xs)))).
  { unfold inp, quoted. cbn [length]. rewrite length_app. cbn [length]. lia. }
  pose proof (pieces_text_length xs) as Hxs.
  unfold fuelOf. cbn [input at_index]. rewrite Hlen.
  cbn [Tokenize_loop].
  rewrite Tokenize_round_string by reflexivity.
  unfold readString. rewrite readChar_at_index.
  rewrite (readString_loop_pieces xs _ [] inp [] 1 Hok);
    [| reflexivity | unfold fuelOf; cbn [input at_index]; lia].
  rewrite Tokenize_round_end; [reflexivity |].
  cbn [at_index ch]. apply nth_overflow. lia.
Qed.

End Lexer2_facts.

Lemma C10_escape_low_byte_witness :
  tokenize2 (quoted (pieces_text
                       [Plain (chr "a");
                        Escape (chr "D", chr "8", chr "3", chr "D");
                        Escape (chr "D", chr "E", chr "0", chr "0")]))
  = Ok [Lexer2.mkToken TokenString
          (map piece_byte
               [Plain (chr "a");
                Escape (chr "D", chr "8", chr "3", chr "D");
                Escape (chr "D", chr "E", chr "0", chr "0")]);
        Lexer2.mkToken TokenEOF []].
Proof.
  apply C10_escape_low_byte.
  repeat constructor; discriminate.
Defined.

(** The literal of the witness: the character [a], then 0x3D and 0x00 for
    the pair U+D83D U+DE00. *)
Lemma escape_low_byte_example :
  map piece_byte
      [Plain (chr "a");
       Escape (chr "D", chr "8", chr "3", chr "D");
       Escape (chr "D", chr "E", chr "0", chr "0")]
  = [chr "a"; 0x3D; 0x00].
Proof. reflexivity. Qed.

(** ** The second version: what Tokenize returns *)

Section Lexer2_lexemes.

Import Lexer2.

Lemma ch_at_index (inp rest : GoString) (k : nat) :
  skipn k inp = rest -> ch (at_index inp k) = hd 0 rest.
Proof.
  intros H. cbn [at_index ch]. rewrite <- (Nat.add_0_r k).
  rewrite (nth_skipn_eq _ _ _ 0 H). destruct rest; reflexivity.
Qed.

(** [for cond(l.ch) { l.readChar() }] over a run of characters that
    satisfy [cond], up to the first one that does not. *)
Lemma readWhile_run (cond : Z -> bool) (run : GoString) :
  forall (fuel : nat) (inp rest : GoString) (k : nat),
    skipn k inp = run ++ rest ->
    Forall (fun c => cond c = true) run ->
    cond (hd 0 rest) = false ->
    (length run < fuel)%nat ->
    readWhile fuel cond (at_index inp k) = Some (at_index inp (k + length run)).
Proof.
  induction run as [| c run IH]; intros fuel inp rest k Hin Hrun Hstop Hfuel.
  - destruct fuel as [| fuel]; [inversion Hfuel |].
    cbn [readWhile]. rewrite (ch_at_index inp _ k Hin). cbn [app] in *.
    rewrite Hstop. cbn [length]. rewrite Nat.add_0_r. reflexivity.
  - destruct fuel as [| fuel]; [inversion Hfuel |].
    inversion Hrun as [| ? ? Hc Hrun']; subst.
    cbn [readWhile]. rewrite (ch_at_index inp _ k Hin). cbn [app hd].
    rewrite Hc, readChar_at_index.
    rewrite (IH fuel inp rest (S k)).
    + cbn [length]. do 2 f_equal. lia.
    + replace (S k) with (k + length [c])%nat by (cbn; lia).
      apply (skipn_more inp [c] _ k Hin).
    + exact Hrun'.
    + exact Hstop.
    + cbn [length] in Hfuel. lia.
Qed.

Lemma skipn_length_le (inp l : GoString) (k : nat) :
  skipn k inp = l -> (k + length l <= length inp \/ l = [])%nat.
Proof.
  intros <-. rewrite length_skipn.
  destruct (Nat.le_gt_cases k (length inp)) as [H | H]; [left; lia |].
  right. apply skipn_all2. lia.
Qed.

Lemma skipn_length_app (inp run rest : GoString) (k : nat) :
  skipn k inp = run ++ rest -> (length run <= length inp)%nat.
Proof.
  intros H. destruct (skipn_length_le _ _ _ H) as [Hle | Hnil].
  - rewrite length_app in Hle. lia.
  - destruct run; [cbn; lia | discriminate].
Qed.

(** skipWhiteSpace over a run of whitespace. *)
Lemma skipWhiteSpace_run (ws inp rest : GoString) (k : nat) :
  skipn k inp = ws ++ rest -> all_space ws -> isWhiteSpace (hd 0 rest) = false ->
  skipWhiteSpace (at_index inp k) = Some (at_index inp (k + length ws)).
Proof.
  intros Hin Hws Hstop. unfold skipWhiteSpace, fuelOf. cbn [at_index input].
  apply (readWhile_run isWhiteSpace ws _ inp rest k Hin Hws Hstop).
  pose proof (skipn_length_app _ _ _ _ Hin). lia.
Qed.

(** A round of Tokenize starts after the whitespace. *)
Lemma Tokenize_round_skip (tokens : list Token) (ws inp rest : GoString) (k : nat) :
  skipn k inp = ws ++ rest -> all_space ws -> isWhiteSpace (hd 0 rest) = false ->
  Tokenize_round tokens (at_index inp k)
  = Tokenize_round tokens (at_index inp (k + length ws)).
Proof.
  intros Hin Hws Hstop. unfold Tokenize_round.
  rewrite (skipWhiteSpace_run ws inp rest k Hin Hws Hstop).
  rewrite (skipWhiteSpace_run [] inp rest (k + length ws)).
  - cbn [length]. rewrite Nat.add_0_r. reflexivity.
  - apply (skipn_more _ _ _ _ Hin).
  - constructor.
  - exact Hstop.
Qed.

Lemma Tokenize_round_punct (tokens : list Token) (l : Lexer) (p : punct) :
  ch l = punct_char p ->
  Tokenize_round tokens l
  = Ok (inr (tokens ++ [lexeme_token (LPunct p)], readChar l)).
Proof.
  intros H. unfold Tokenize_round, skipWhiteSpace, fuelOf. cbn [readWhile].
  rewrite H.
  destruct p;
    match goal with
    | |- context [isWhiteSpace (punct_char ?q)] =>
      change (isWhiteSpace (punct_char q)) with false
    end; cbv iota; rewrite H; reflexivity.
Qed.

(** One round of readString's loop on a one-character escape. *)
Lemma readString_loop_simple (fuel : nat) (sb : GoString) (l : Lexer) (b : Z) :
  ch l = backslash -> simple_escape (ch (readChar l)) = Some b ->
  readString_loop (S fuel) sb l
  = readString_loop fuel (sb ++ [b]) (readChar (readChar l)).
Proof.
  intros H1 H2. cbn [readString_loop]. rewrite H1.
  change (backslash =? quote) with false. change (backslash =? backslash) with true.
  cbv iota. unfold simple_escape in H2.
  repeat match type of H2 with
         | (if ?c then _ else _) = _ => destruct c; [injection H2 as <-; reflexivity |]
         end.
  discriminate.
Qed.

Lemma readString_loop_item (fuel : nat) (sb inp rest : GoString) (k : nat) (x : item) :
  item_ok x ->
  skipn k inp = item_text x ++ rest ->
  readString_loop (S fuel) sb (at_index inp k)
  = readString_loop fuel (sb ++ [item_byte x]) (at_index inp (k + length (item_text x))).
Proof.
  intros Hx Hin. destruct x as [[c | e] | c]; cbn [item_text item_ok item_byte] in *.
  - cbn [piece_text app piece_ok piece_byte] in *. destruct Hx as (H1 & H2 & H3).
    assert (Hc : ch (at_index inp k) = c) by apply (ch_at_index _ _ _ Hin).
    rewrite readString_loop_plain by (rewrite Hc; assumption).
    rewrite Hc, readChar_at_index. cbn [length].
    replace (k + 1)%nat with (S k) by lia. reflexivity.
  - cbn [piece_text piece_ok piece_byte] in *.
    rewrite (readString_loop_escape fuel sb inp _ k e Hx Hin).
    destruct e as [[[h1 h2] h3] h4]. reflexivity.
  - cbn [app] in Hin.
    assert (Hc : ch (readChar (at_index inp k)) = c).
    { rewrite readChar_at_index. cbn [at_index ch].
      replace (S k) with (k + 1)%nat by lia. apply (nth_skipn_eq _ _ _ 1 Hin). }
    destruct (simple_escape c) as [b |] eqn:Hb; [| congruence].
    rewrite (readString_loop_simple fuel sb _ b).
    + rewrite !readChar_at_index. cbn [length].
      replace (k + 2)%nat with (S (S k)) by lia. reflexivity.
    + apply (ch_at_index _ _ _ Hin).
    + rewrite Hc. exact Hb.
Qed.

Lemma items_text_length (xs : list item) :
  (length xs <= length (items_text xs))%nat.
Proof.
  induction xs as [| x xs IH]; [reflexivity |].
  unfold items_text in *. cbn [map concat length]. rewrite length_app.
  destruct x as [[c | [[[h1 h2] h3] h4]] | c];
    cbn [item_text piece_text escape_text length]; lia.
Qed.

(** readString's loop over the items of a body. *)
Lemma readString_loop_items (xs : list item) :
  forall (fuel : nat) (sb inp rest : GoString) (k : nat),
    Forall item_ok xs ->
    skipn k inp = items_text xs ++ rest ->
    readString_loop (length xs + fuel) sb (at_index inp k)
    = readString_loop fuel (sb ++ map item_byte xs)
        (at_index inp (k + length (items_text xs))).
Proof.
  induction xs as [| x xs IH]; intros fuel sb inp rest k Hok Hin.
  - cbn. rewrite app_nil_r, Nat.add_0_r. reflexivity.
  - inversion Hok as [| ? ? Hx Hxs]; subst.
    unfold items_text in Hin |- *. cbn [map concat] in Hin |- *.
    rewrite <- app_assoc in Hin. cbn [length Nat.add].
    rewrite (readString_loop_item _ sb inp _ k x Hx Hin).
    rewrite (IH fuel _ inp rest _ Hxs (skipn_more _ _ _ _ Hin)).
    rewrite <- app_assoc, length_app. cbn [app]. do 2 f_equal.
    unfold items_text. lia.
Qed.

(** A round of Tokenize on a string literal. *)
Lemma Tokenize_round_items (tokens : list Token) (inp rest : GoString) (k : nat)
    (body : list item) :
  Forall item_ok body ->
  skipn k inp = quoted (items_text body) ++ rest ->
  Tokenize_round tokens (at_index inp k)
  = Ok (inr (tokens ++ [lexeme_token (LString body)],
             at_index inp (k + length (quoted (items_text body))))).
Proof.
  intros Hok Hin. unfold quoted in Hin. cbn [app] in Hin. rewrite <- app_assoc in Hin.
  rewrite Tokenize_round_string by apply (ch_at_index _ _ _ Hin).
  unfold readString. rewrite readChar_at_index.
  assert (Hbody : skipn (S k) inp = items_text body ++ quote :: rest).
  { replace (S k) with (k + length [quote])%nat by (cbn; lia).
    apply (skipn_more inp [quote] _ k Hin). }
  pose proof (items_text_length body) as Hlen.
  pose proof (skipn_length_app _ _ _ _ Hbody) as Hle.
  unfold fuelOf. cbn [at_index input].
  replace (S (S (length inp)))
    with (length body + S (S (length inp) - length body))%nat by lia.
  rewrite (readString_loop_items body _ [] inp _ (S k) Hok Hbody).
  rewrite readString_loop_quote
    by (apply (ch_at_index _ _ _ (skipn_more _ _ _ _ Hbody))).
  rewrite readChar_at_index. cbn [app lexeme_token].
  unfold quoted. cbn [length]. rewrite length_app. cbn [length].
  do 4 f_equal. lia.
Qed.

Lemma isDigit_range (c : Z) : isDigit c = true <-> 48 <= c <= 57.
Proof.
  unfold isDigit. change (chr "0") with 48. change (chr "9") with 57.
  rewrite andb_true_iff, !Z.leb_le. tauto.
Qed.

Lemma isLetter_range (c : Z) :
  isLetter c = true <-> (97 <= c <= 122) \/ (65 <= c <= 90) \/ c = 95.
Proof.
  unfold isLetter.
  change (chr "a") with 97; change (chr "z") with 122;
  change (chr "A") with 65; change (chr "Z") with 90; change (chr "_") with 95.
  rewrite !orb_true_iff, !andb_true_iff, !Z.leb_le, Z.eqb_eq. tauto.
Qed.

Lemma input_at_index (inp : GoString) (k : nat) : input (at_index inp k) = inp.
Proof. reflexivity. Qed.

Lemma position_at_index (inp : GoString) (k : nat) : position (at_index inp k) = k.
Proof. reflexivity. Qed.

Lemma slice_at (inp t rest : GoString) (k : nat) :
  skipn k inp = t ++ rest -> slice inp k (k + length t) = t.
Proof.
  intros H. unfold slice. rewrite H.
  replace (k + length t - k)%nat with (length t) by lia.
  rewrite firstn_app, Nat.sub_diag, firstn_all. cbn. apply app_nil_r.
Qed.

(** The dispatch of a round on a character that starts a number. *)
Lemma Tokenize_round_number_start (tokens : list Token) (l : Lexer) :
  isDigit (ch l) = true \/ ch l = chr "-" ->
  Tokenize_round tokens l
  = match readNumber l with
    | Some (num, l') => Ok (inr (tokens ++ [mkToken TokenNumber num], readChar l'))
    | None => Timeout
    end.
Proof.
  intros H.
  assert (Hc : 48 <= ch l <= 57 \/ ch l = 45)
    by (destruct H as [H | H]; [left; apply isDigit_range, H | right; exact H]).
  assert (Hne : forall c, c <> 45 -> (c < 48 \/ 57 < c) -> (ch l =? c) = false)
    by (intros c ? ?; apply Z.eqb_neq; lia).
  assert (Hspace : isWhiteSpace (ch l) = false).
  { unfold isWhiteSpace. change (chr " ") with 32.
    rewrite !Hne by lia. reflexivity. }
  assert (Hletter : isLetter (ch l) = false).
  { destruct (isLetter (ch l)) eqn:E; [| reflexivity].
    apply isLetter_range in E. lia. }
  unfold Tokenize_round, skipWhiteSpace, fuelOf. cbn [readWhile].
  rewrite Hspace. cbv zeta.
  rewrite (Hne (chr "{")), (Hne (chr "}")), (Hne (chr ":")), (Hne (chr ",")),
    (Hne quote), (Hne 0), Hletter
    by first [discriminate | left; reflexivity | right; reflexivity].
  replace (isDigit (ch l) || (ch l =? chr "-")) with true; [reflexivity |].
  symmetry. apply orb_true_iff.
  destruct H as [H | H]; [left; exact H | right; apply Z.eqb_eq, H].
Qed.

(** readNumber reads the whole text of a number and stops on the
    character that ends it. *)
Lemma readNumber_text (inp rest : GoString) (k : nat) (n : number) :
  number_ok n -> ends_number n (hd 0 rest) ->
  skipn k inp = number_text n ++ rest ->
  readNumber (at_index inp k)
  = Some (number_text n, at_index inp (k + length (number_text n))).
Proof.
  intros (Hint & Hfrac & Hstart) (Hfd & Hfp) Hin.
  pose proof (skipn_length_app _ _ _ _ Hin) as Hle.
  pose proof (slice_at _ _ _ _ Hin) as Hslice.
  destruct n as [neg ds frac]. unfold number_text in *. cbn [negative integer fraction] in *.
  unfold readNumber. cbn [at_index position].
  set (sign := if neg then [chr "-"] else []) in *.
  assert (Hk1 : (if ch (at_index inp k) =? chr "-"
                 then readChar (at_index inp k) else at_index inp k)
                = at_index inp (k + length sign)).
  { rewrite (ch_at_index _ _ _ Hin). destruct neg; subst sign; cbn [app hd length].
    - change (chr "-" =? chr "-") with true. cbv iota.
      rewrite readChar_at_index. f_equal. lia.
    - rewrite Nat.add_0_r.
      destruct ds as [| d ds]; [destruct Hstart; [discriminate | congruence] |].
      cbn [app hd]. inversion Hint as [| ? ? Hd _]; subst.
      apply isDigit_range in Hd.
      replace (d =? chr "-") with false; [reflexivity |].
      symmetry. apply Z.eqb_neq. change (chr "-") with 45. lia. }
  rewrite Hk1. clear Hk1.
  rewrite <- app_assoc in Hin.
  pose proof (skipn_more _ _ _ _ Hin) as Hin1.
  set (tail := match frac with Some fs => chr "." :: fs | None => [] end) in *.
  assert (Hstop1 : isDigit (hd 0 (tail ++ rest)) = false).
  { subst tail. destruct frac; cbn [app hd]; [reflexivity | exact Hfd]. }
  unfold fuelOf at 1. cbn [at_index input].
  rewrite <- app_assoc in Hin1.
  rewrite (readWhile_run isDigit ds _ inp _ _ Hin1 Hint Hstop1)
    by (rewrite !length_app in Hle; lia).
  pose proof (skipn_more _ _ _ _ Hin1) as Hin2.
  rewrite (ch_at_index _ _ _ Hin2).
  subst tail. destruct frac as [fs |]; cbn [app hd] in *.
  - change (chr "." =? chr ".") with true. cbv iota.
    rewrite readChar_at_index. unfold fuelOf. cbn [at_index input].
    assert (Hin3 : skipn (S (k + length sign + length ds)) inp = fs ++ rest).
    { replace (S (k + length sign + length ds))
        with (k + length sign + length ds + length [chr "."])%nat by (cbn; lia).
      apply (skipn_more inp [chr "."] _ _ Hin2). }
    rewrite (readWhile_run isDigit fs _ inp _ _ Hin3 Hfrac Hfd)
      by (rewrite !length_app in Hle; cbn [length] in Hle; lia).
    rewrite input_at_index, position_at_index.
    replace (S (k + length sign + length ds) + length fs)%nat
      with (k + length (sign ++ ds ++ chr "." :: fs))%nat
      by (rewrite !length_app; cbn [length]; lia).
    rewrite Hslice. reflexivity.
  - replace (hd 0 rest =? chr ".") with false by (symmetry; apply Z.eqb_neq; exact Hfp).
    rewrite input_at_index, position_at_index.
    replace (k + length sign + length ds)%nat
      with (k + length (sign ++ ds ++ []))%nat
      by (rewrite !length_app; cbn [length]; lia).
    rewrite Hslice. reflexivity.
Qed.

(** A round of Tokenize on a number: the token holds the text of the
    number, and the round ends one character past the character that
    ended the number. *)
Lemma Tokenize_round_number (tokens : list Token) (inp rest : GoString) (k : nat)
    (n : number) :
  number_ok n -> ends_number n (hd 0 rest) ->
  skipn k inp = number_text n ++ rest ->
  Tokenize_round tokens (at_index inp k)
  = Ok (inr (tokens ++ [mkToken TokenNumber (number_text n)],
             at_index inp (S (k + length (number_text n))))).
Proof.
  intros Hok Hend Hin.
  rewrite Tokenize_round_number_start.
  - rewrite (readNumber_text inp rest k n Hok Hend Hin).
    rewrite readChar_at_index. reflexivity.
  - rewrite (ch_at_index _ _ _ Hin).
    destruct Hok as (Hint & _ & Hstart).
    destruct n as [neg ds frac]. unfold number_text.
    cbn [negative integer fraction] in *.
    destruct neg; [right; reflexivity | left].
    destruct ds as [| d ds]; [destruct Hstart; [discriminate | congruence] |].
    cbn [app hd]. inversion Hint; assumption.
Qed.

(** The dispatch of a round on a letter. *)
Lemma Tokenize_round_letter_start (tokens : list Token) (l : Lexer) :
  isLetter (ch l) = true ->
  Tokenize_round tokens l
  = match readLiteral l with
    | Some (literal, l') =>
      if GoString_eqb literal (bytes "true")
      then Ok (inr (tokens ++ [mkToken TokenTrue literal], readChar l'))
      else if GoString_eqb literal (bytes "false")
      then Ok (inr (tokens ++ [mkToken TokenFalse literal], readChar l'))
      else if GoString_eqb literal (bytes "null")
      then Ok (inr (tokens ++ [mkToken TokenNull literal], readChar l'))
      else Err (NewUnexpectedCharacterError (ch l'))
    | None => Timeout
    end.
Proof.
  intros H. pose proof (proj1 (isLetter_range _) H) as Hc.
  assert (Hne : forall c, (c < 65 \/ 122 < c) -> (ch l =? c) = false)
    by (intros c ?; apply Z.eqb_neq; lia).
  assert (Hspace : isWhiteSpace (ch l) = false).
  { unfold isWhiteSpace. change (chr " ") with 32.
    rewrite !Hne by lia. reflexivity. }
  unfold Tokenize_round, skipWhiteSpace, fuelOf. cbn [readWhile].
  rewrite Hspace. cbv zeta.
  rewrite (Hne (chr "{")), (Hne (chr "}")), (Hne (chr ":")), (Hne (chr ",")),
    (Hne quote), (Hne 0), H
    by first [left; reflexivity | right; reflexivity].
  reflexivity.
Qed.

(** readLiteral reads a whole run of letters and digits. *)
Lemma readLiteral_run (inp rest run : GoString) (k : nat) :
  all_word run -> ends_word (hd 0 rest) ->
  skipn k inp = run ++ rest ->
  readLiteral (at_index inp k) = Some (run, at_index inp (k + length run)).
Proof.
  intros Hrun (Hl & Hd) Hin. unfold readLiteral, fuelOf.
  rewrite input_at_index, position_at_index.
  rewrite (readWhile_run (fun c => isLetter c || isDigit c) run _ inp rest k Hin Hrun).
  - rewrite input_at_index, position_at_index, (slice_at _ _ _ _ Hin). reflexivity.
  - rewrite Hl, Hd. reflexivity.
  - pose proof (skipn_length_app _ _ _ _ Hin). lia.
Qed.

Lemma keyword_text_word (kw : keyword) : all_word (keyword_text kw).
Proof. destruct kw; repeat constructor. Qed.

(** A round of Tokenize on a keyword: the round ends one character past
    the character that ended the keyword. *)
Lemma Tokenize_round_keyword (tokens : list Token) (inp rest : GoString) (k : nat)
    (kw : keyword) :
  ends_word (hd 0 rest) ->
  skipn k inp = keyword_text kw ++ rest ->
  Tokenize_round tokens (at_index inp k)
  = Ok (inr (tokens ++ [mkToken (keyword_type kw) (keyword_text kw)],
             at_index inp (S (k + length (keyword_text kw))))).
Proof.
  intros Hend Hin.
  rewrite Tokenize_round_letter_start
    by (rewrite (ch_at_index _ _ _ Hin); destruct kw; reflexivity).
  rewrite (readLiteral_run inp rest (keyword_text kw) k
             (keyword_text_word kw) Hend Hin).
  rewrite readChar_at_index.
  destruct kw; reflexivity.
Qed.

(** A round of Tokenize on a run of letters and digits that starts with a
    letter and is none of the three keywords: the error names the
    character after the run. *)
Lemma Tokenize_round_word (tokens : list Token) (inp rest run : GoString) (k : nat) :
  isLetter (hd 0 run) = true -> all_word run -> ends_word (hd 0 rest) ->
  run <> bytes "true" -> run <> bytes "false" -> run <> bytes "null" ->
  skipn k inp = run ++ rest ->
  Tokenize_round tokens (at_index inp k)
  = Err (NewUnexpectedCharacterError (hd 0 rest)).
Proof.
  intros Hfirst Hrun Hend Ht Hf Hn Hin.
  assert (Hch : ch (at_index inp k) = hd 0 run).
  { rewrite (ch_at_index _ _ _ Hin). destruct run; [discriminate | reflexivity]. }
  rewrite Tokenize_round_letter_start by (rewrite Hch; exact Hfirst).
  rewrite (readLiteral_run inp rest run k Hrun Hend Hin).
  unfold GoString_eqb. rewrite !bool_decide_eq_false_2 by assumption.
  rewrite (ch_at_index _ _ _ (skipn_more _ _ _ _ Hin)). reflexivity.
Qed.

Lemma all_space_not_nul (c : Z) : isWhiteSpace c = true -> c <> 0.
Proof. intros H ->. discriminate. Qed.

(** A round of Tokenize on whitespace and a lexeme. *)
Lemma Tokenize_round_lexeme (tokens : list Token) (inp rest ws : GoString) (k : nat)
    (x : lexeme) :
  all_space ws -> lexeme_ok x ->
  skipn k inp = (ws ++ lexeme_text x) ++ rest ->
  Tokenize_round tokens (at_index inp k)
  = Ok (inr (tokens ++ [lexeme_token x],
             at_index inp (k + length (ws ++ lexeme_text x)))).
Proof.
  intros Hws Hx Hin. rewrite <- app_assoc in Hin.
  pose proof (skipn_more _ _ _ _ Hin) as Hin1.
  rewrite length_app, Nat.add_assoc.
  assert (Hstart : isWhiteSpace (hd 0 (lexeme_text x ++ rest)) = false).
  { destruct x as [p | body | n follow | kw follow]; cbn [lexeme_text lexeme_ok] in *.
    - destruct p; reflexivity.
    - reflexivity.
    - destruct Hx as ((Hint & _ & Hstart) & _).
      destruct n as [[] ds frac]; unfold number_text;
        cbn [negative integer fraction] in *; [reflexivity |].
      destruct ds as [| d ds]; [destruct Hstart; [discriminate | congruence] |].
      cbn [app hd]. inversion Hint as [| ? ? Hd _]; subst.
      apply isDigit_range in Hd. unfold isWhiteSpace. change (chr " ") with 32.
      replace (d =? 32) with false by (symmetry; apply Z.eqb_neq; lia).
      replace (d =? 9) with false by (symmetry; apply Z.eqb_neq; lia).
      replace (d =? 10) with false by (symmetry; apply Z.eqb_neq; lia).
      replace (d =? 13) with false by (symmetry; apply Z.eqb_neq; lia).
      reflexivity.
    - destruct kw; reflexivity. }
  rewrite (Tokenize_round_skip tokens ws inp _ k Hin Hws Hstart).
  destruct x as [p | body | n follow | kw follow]; cbn [lexeme_text lexeme_ok] in *.
  - rewrite (Tokenize_round_punct tokens _ p) by apply (ch_at_index _ _ _ Hin1).
    rewrite readChar_at_index. cbn [length]. do 4 f_equal. lia.
  - apply (Tokenize_round_items tokens inp rest _ body Hx Hin1).
  - destruct Hx as (Hn & Hend). rewrite <- app_assoc in Hin1. cbn [app] in Hin1.
    rewrite (Tokenize_round_number tokens inp (follow :: rest) _ n Hn Hend Hin1).
    rewrite length_app. cbn [length lexeme_token]. do 4 f_equal. lia.
  - rewrite <- app_assoc in Hin1. cbn [app] in Hin1.
    rewrite (Tokenize_round_keyword tokens inp (follow :: rest) _ kw Hx Hin1).
    rewrite length_app. cbn [length lexeme_token]. do 4 f_equal. lia.
Qed.

Lemma spaced_text_length (xs : list (GoString * lexeme)) :
  (length xs <= length (spaced_text xs))%nat.
Proof.
  induction xs as [| [ws x] xs IH]; [reflexivity |].
  unfold spaced_text in *. cbn [map concat length fst snd].
  rewrite !length_app.
  assert (1 <= length (lexeme_text x))%nat; [| lia].
  destruct x; cbn [lexeme_text quoted length]; rewrite ?length_app; cbn [length]; lia.
Qed.

(** Tokenize's loop over lexemes: one round and one token each. *)
Lemma Tokenize_loop_lexemes (xs : list (GoString * lexeme)) :
  forall (fuel : nat) (tokens : list Token) (inp rest : GoString) (k : nat),
    spaced_ok xs ->
    skipn k inp = spaced_text xs ++ rest ->
    Tokenize_loop (length xs + fuel) tokens (at_index inp k)
    = Tokenize_loop fuel (tokens ++ lexeme_tokens xs)
        (at_index inp (k + length (spaced_text xs))).
Proof.
  induction xs as [| [ws x] xs IH]; intros fuel tokens inp rest k Hok Hin.
  - cbn. rewrite app_nil_r, Nat.add_0_r. reflexivity.
  - inversion Hok as [| ? ? [Hws Hx] Hxs]; subst. cbn [fst snd] in *.
    unfold spaced_text in Hin |- *. cbn [map concat fst snd] in Hin |- *.
    rewrite <- app_assoc in Hin. cbn [length Nat.add Tokenize_loop].
    rewrite (Tokenize_round_lexeme tokens inp _ ws k x Hws Hx Hin).
    rewrite (IH fuel _ inp rest _ Hxs (skipn_more _ _ _ _ Hin)).
    rewrite <- app_assoc, (length_app (ws ++ lexeme_text x)). cbn [app].
    do 2 f_equal. unfold spaced_text. lia.
Qed.

(** Tokenize after lexemes: the tokens of the lexemes, then what the loop
    returns on the rest of the text. *)
Lemma tokenize2_after_lexemes (xs : list (GoString * lexeme)) (rest : GoString) :
  spaced_ok xs ->
  exists fuel : nat,
    (length rest + 2 <= fuel)%nat
    /\ tokenize2 (spaced_text xs ++ rest)
       = Tokenize_loop fuel (lexeme_tokens xs)
           (at_index (spaced_text xs ++ rest) (length (spaced_text xs))).
Proof.
  intros Hok. unfold tokenize2, Tokenize. rewrite NewLexer_at_index.
  set (inp := spaced_text xs ++ rest).
  pose proof (spaced_text_length xs) as Hxs.
  assert (Hlen : length inp = (length (spaced_text xs) + length rest)%nat)
    by (unfold inp; rewrite length_app; lia).
  exists (S (S (length inp)) - length xs)%nat. split; [lia |].
  unfold fuelOf. rewrite input_at_index.
  replace (S (S (length inp)))
    with (length xs + (S (S (length inp)) - length xs))%nat at 1 by lia.
  rewrite (Tokenize_loop_lexemes xs _ [] inp rest 0 Hok eq_refl).
  reflexivity.
Qed.

Lemma skipn_app_length (pre rest : GoString) : skipn (length pre) (pre ++ rest) = rest.
Proof. rewrite skipn_app, skipn_all, Nat.sub_diag. reflexivity. Qed.

Lemma tokenize2_spaced_lexemes (xs : list (GoString * lexeme)) (ws stop : GoString) :
  spaced_ok xs -> all_space ws -> hd 0 stop = 0 ->
  tokenize2 (spaced_text xs ++ ws ++ stop)
  = Ok (lexeme_tokens xs ++ [mkToken TokenEOF []]).
Proof.
  intros Hok Hws Hstop.
  destruct (tokenize2_after_lexemes xs (ws ++ stop) Hok) as (fuel & Hfuel & ->).
  destruct fuel as [| fuel]; [lia |]. cbn [Tokenize_loop].
  assert (Hin : skipn (length (spaced_text xs)) (spaced_text xs ++ ws ++ stop)
                = ws ++ stop) by apply skipn_app_length.
  rewrite (Tokenize_round_skip _ ws _ stop _ Hin Hws) by (rewrite Hstop; reflexivity).
  rewrite Tokenize_round_end; [reflexivity |].
  rewrite (ch_at_index _ _ _ (skipn_more _ _ _ _ Hin)). exact Hstop.
Qed.

(** X1.  Lexemes, then whitespace, then the end of the input or a byte 0:
    Tokenize returns the tokens of the lexemes and the end-of-input token.
    The character after a number or a keyword is part of the lexeme and
    gives no token. *)
Theorem tokenize2_lexemes (xs : list (GoString * lexeme)) (ws stop : GoString) :
  spaced_ok xs -> all_space ws -> hd 0 stop = 0 ->
  tokenize2 (spaced_text xs ++ ws ++ stop)
  = Ok (lexeme_tokens xs ++ [mkToken TokenEOF []]).
Proof. apply tokenize2_spaced_lexemes. Qed.

(** The state of the loop after the lexemes and a run of whitespace. *)
Lemma tokenize2_round_after (xs : list (GoString * lexeme)) (ws rest : GoString) :
  spaced_ok xs -> all_space ws -> isWhiteSpace (hd 0 rest) = false ->
  exists (fuel : nat) (inp : GoString) (k : nat),
    skipn k inp = rest
    /\ (length rest + 1 <= fuel)%nat
    /\ tokenize2 (spaced_text xs ++ ws ++ rest)
       = match Tokenize_round (lexeme_tokens xs) (at_index inp k) with
         | Ok (inl tokens) => Ok tokens
         | Ok (inr (tokens, l)) => Tokenize_loop fuel tokens l
         | Err e => Err e
         | Timeout => Timeout
         end.
Proof.
  intros Hok Hws Hstart.
  destruct (tokenize2_after_lexemes xs (ws ++ rest) Hok) as (fuel & Hfuel & ->).
  destruct fuel as [| fuel]; [lia |]. cbn [Tokenize_loop].
  assert (Hin : skipn (length (spaced_text xs)) (spaced_text xs ++ ws ++ rest)
                = ws ++ rest) by apply skipn_app_length.
  rewrite (Tokenize_round_skip _ ws _ rest _ Hin Hws Hstart).
  exists fuel, (spaced_text xs ++ ws ++ rest), (length (spaced_text xs) + length ws)%nat.
  split; [apply (skipn_more _ _ _ _ Hin) |].
  split; [rewrite length_app in Hfuel; lia | reflexivity].
Qed.

Lemma Tokenize_loop_past_end (fuel : nat) (tokens : list Token) (inp : GoString)
    (k : nat) :
  (length inp <= k)%nat ->
  Tokenize_loop (S fuel) tokens (at_index inp k) = Ok (tokens ++ [mkToken TokenEOF []]).
Proof.
  intros H. cbn [Tokenize_loop]. rewrite Tokenize_round_end; [reflexivity |].
  cbn [at_index ch]. apply nth_overflow, H.
Qed.

Lemma number_first_not_space (n : number) (rest : GoString) :
  number_ok n -> isWhiteSpace (hd 0 (number_text n ++ rest)) = false.
Proof.
  intros (Hint & _ & Hstart).
  destruct n as [[] ds frac]; unfold number_text;
    cbn [negative integer fraction] in *; [reflexivity |].
  destruct ds as [| d ds]; [destruct Hstart; [discriminate | congruence] |].
  cbn [app hd]. inversion Hint as [| ? ? Hd _]; subst.
  apply isDigit_range in Hd. unfold isWhiteSpace. change (chr " ") with 32.
  replace (d =? 32) with false by (symmetry; apply Z.eqb_neq; lia).
  replace (d =? 9) with false by (symmetry; apply Z.eqb_neq; lia).
  replace (d =? 10) with false by (symmetry; apply Z.eqb_neq; lia).
  replace (d =? 13) with false by (symmetry; apply Z.eqb_neq; lia).
  reflexivity.
Qed.

(** X2.  A number that ends the input, after lexemes and whitespace: its
    token holds the whole text, a lone minus or a point without digits
    included, and no error is returned. *)
Theorem tokenize2_last_number (xs : list (GoString * lexeme)) (ws : GoString)
    (n : number) :
  spaced_ok xs -> all_space ws -> number_ok n ->
  tokenize2 (spaced_text xs ++ ws ++ number_text n)
  = Ok (lexeme_tokens xs
        ++ [mkToken TokenNumber (number_text n); mkToken TokenEOF []]).
Proof.
  intros Hok Hws Hn.
  pose proof (number_first_not_space n [] Hn) as Hstart. rewrite app_nil_r in Hstart.
  destruct (tokenize2_round_after xs ws (number_text n) Hok Hws Hstart)
    as (fuel & inp & k & Hin & Hfuel & ->).
  assert (Hend : ends_number n (hd 0 []))
    by (split; [reflexivity | destruct (fraction n); [exact I | discriminate]]).
  pose proof Hin as Hin'. rewrite <- (app_nil_r (number_text n)) in Hin'.
  rewrite (Tokenize_round_number _ inp [] k n Hn Hend Hin').
  destruct fuel as [| fuel]; [lia |].
  rewrite Tokenize_loop_past_end.
  - rewrite <- app_assoc. reflexivity.
  - apply (f_equal (@length Z)) in Hin. rewrite length_skipn in Hin. lia.
Qed.

(** A keyword that ends the input, after lexemes and whitespace. *)
Lemma tokenize2_last_keyword (xs : list (GoString * lexeme)) (ws : GoString)
    (kw : keyword) :
  spaced_ok xs -> all_space ws ->
  tokenize2 (spaced_text xs ++ ws ++ keyword_text kw)
  = Ok (lexeme_tokens xs
        ++ [mkToken (keyword_type kw) (keyword_text kw); mkToken TokenEOF []]).
Proof.
  intros Hok Hws.
  assert (Hstart : isWhiteSpace (hd 0 (keyword_text kw)) = false)
    by (destruct kw; reflexivity).
  destruct (tokenize2_round_after xs ws (keyword_text kw) Hok Hws Hstart)
    as (fuel & inp & k & Hin & Hfuel & ->).
  pose proof Hin as Hin'. rewrite <- (app_nil_r (keyword_text kw)) in Hin'.
  rewrite (Tokenize_round_keyword _ inp [] k kw (conj eq_refl eq_refl) Hin').
  destruct fuel as [| fuel]; [lia |].
  rewrite Tokenize_loop_past_end.
  - rewrite <- app_assoc. reflexivity.
  - apply (f_equal (@length Z)) in Hin. rewrite length_skipn in Hin. lia.
Qed.

(** X3.  Punctuation written directly after a number gives no token: the
    character that ends a number is skipped by the [l.readChar()] that
    closes the round. *)
Theorem tokenize2_punct_after_number_lost (n : number) (p : punct) :
  number_ok n ->
  tokenize2 (number_text n ++ [punct_char p])
  = Ok [mkToken TokenNumber (number_text n); mkToken TokenEOF []].
Proof.
  intros Hn.
  pose proof (tokenize2_spaced_lexemes [([], LNumber n (punct_char p))] [] []) as H.
  unfold spaced_text, lexeme_tokens in H.
  cbn [map concat fst snd lexeme_text lexeme_token app] in H.
  rewrite !app_nil_r in H. apply H.
  - constructor; [| constructor]. split; [constructor |].
    split; [exact Hn |]. split; [destruct p; reflexivity |].
    destruct (fraction n); [exact I | destruct p; discriminate].
  - constructor.
  - reflexivity.
Qed.

(** X4.  A run of letters and digits that starts with a letter and is none
    of [true], [false], [null] is an error; the error carries the character
    after the run (0 at the end of the input), not a character of the run. *)
Theorem tokenize2_word_error (xs : list (GoString * lexeme)) (ws run rest : GoString) :
  spaced_ok xs -> all_space ws ->
  isLetter (hd 0 run) = true -> all_word run -> ends_word (hd 0 rest) ->
  run <> bytes "true" -> run <> bytes "false" -> run <> bytes "null" ->
  tokenize2 (spaced_text xs ++ ws ++ run ++ rest)
  = Err (NewUnexpectedCharacterError (hd 0 rest)).
Proof.
  intros Hok Hws Hfirst Hrun Hend Ht Hf Hn.
  assert (Hstart : isWhiteSpace (hd 0 (run ++ rest)) = false).
  { destruct run as [| c run]; [discriminate |]. cbn [app hd] in *.
    apply isLetter_range in Hfirst. unfold isWhiteSpace. change (chr " ") with 32.
    replace (c =? 32) with false by (symmetry; apply Z.eqb_neq; lia).
    replace (c =? 9) with false by (symmetry; apply Z.eqb_neq; lia).
    replace (c =? 10) with false by (symmetry; apply Z.eqb_neq; lia).
    replace (c =? 13) with false by (symmetry; apply Z.eqb_neq; lia).
    reflexivity. }
  destruct (tokenize2_round_after xs ws (run ++ rest) Hok Hws Hstart)
    as (fuel & inp & k & Hin & _ & ->).
  rewrite (Tokenize_round_word _ inp rest run k Hfirst Hrun Hend Ht Hf Hn Hin).
  reflexivity.
Qed.

(** X5.  A character on which no production starts is an error that carries
    that character; the brackets of arrays are such characters. *)
Theorem tokenize2_unknown_character (xs : list (GoString * lexeme))
    (ws rest : GoString) (c : Z) :
  spaced_ok xs -> all_space ws -> starts_nothing c ->
  tokenize2 (spaced_text xs ++ ws ++ c :: rest)
  = Err (NewUnexpectedCharacterError c).
Proof.
  intros Hok Hws (Hs & H1 & H2 & H3 & H4 & H5 & H6 & Hl & Hd & Hm).
  destruct (tokenize2_round_after xs ws (c :: rest) Hok Hws Hs)
    as (fuel & inp & k & Hin & _ & ->).
  assert (Hc : ch (at_index inp k) = c) by apply (ch_at_index _ _ _ Hin).
  unfold Tokenize_round, skipWhiteSpace, fuelOf. cbn [readWhile].
  rewrite Hc, Hs. cbv zeta. rewrite Hc.
  apply Z.eqb_neq in H1, H2, H3, H4, H5, H6, Hm.
  rewrite H1, H2, H3, H4, H5, H6, Hl, Hd, Hm. reflexivity.
Qed.

(** A round of Tokenize on an opening quote and items: readString's loop
    is at the character after the items, with their bytes in the builder. *)
Lemma Tokenize_round_string_after (tokens : list Token) (inp rest : GoString)
    (k : nat) (body : list item) :
  Forall item_ok body ->
  skipn k inp = quote :: items_text body ++ rest ->
  exists fuel : nat,
    Tokenize_round tokens (at_index inp k)
    = match readString_loop (S fuel) (map item_byte body)
              (at_index inp (S (k + length (items_text body)))) with
      | Ok (str, l') => Ok (inr (tokens ++ [mkToken TokenString str], l'))
      | Err e => Err e
      | Timeout => Timeout
      end.
Proof.
  intros Hok Hin.
  rewrite Tokenize_round_string by apply (ch_at_index _ _ _ Hin).
  unfold readString. rewrite readChar_at_index.
  assert (Hbody : skipn (S k) inp = items_text body ++ rest).
  { replace (S k) with (k + length [quote])%nat by (cbn; lia).
    apply (skipn_more inp [quote] _ k Hin). }
  pose proof (items_text_length body) as Hlen.
  pose proof (skipn_length_app _ _ _ _ Hbody) as Hle.
  unfold fuelOf. rewrite input_at_index.
  exists (S (length inp) - length body)%nat.
  replace (S (S (length inp)))
    with (length body + S (S (length inp) - length body))%nat by lia.
  rewrite (readString_loop_items body _ [] inp _ (S k) Hok Hbody).
  reflexivity.
Qed.

Lemma readString_loop_nul (fuel : nat) (sb : GoString) (l : Lexer) :
  ch l = 0 -> readString_loop (S fuel) sb l = Err (Errorf "unterminated string" []).
Proof. intros H. cbn [readString_loop]. rewrite H. reflexivity. Qed.

Lemma readString_loop_bad_escape (fuel : nat) (sb : GoString) (l : Lexer) :
  ch l = backslash ->
  simple_escape (ch (readChar l)) = None -> ch (readChar l) <> chr "u" ->
  readString_loop (S fuel) sb l = Err (NewUnexpectedCharacterError (ch (readChar l))).
Proof.
  intros H1 H2 H3. cbn [readString_loop]. rewrite H1.
  change (backslash =? quote) with false. change (backslash =? backslash) with true.
  cbv iota. unfold simple_escape in H2. apply Z.eqb_neq in H3.
  repeat match type of H2 with
         | (if ?c then _ else _) = _ => destruct c; [discriminate |]
         end.
  rewrite H3. reflexivity.
Qed.

(** readUnicode on fewer than four hexadecimal digits. *)
Lemma readUnicode_loop_short (n : nat) :
  forall (hs hex inp rest : GoString) (k : nat),
    all_hex hs -> (length hs < n)%nat -> isHexDigit (hd 0 rest) = false ->
    skipn (S k) inp = hs ++ rest ->
    readUnicode_loop n hex (at_index inp k)
    = Err (Errorf "invalid Unicode escpae sequence" []).
Proof.
  induction n as [| n IH]; intros hs hex inp rest k Hhs Hlen Hbad Hin; [lia |].
  cbn [readUnicode_loop]. rewrite readChar_at_index, (ch_at_index _ _ _ Hin).
  destruct hs as [| h hs]; cbn [app hd length] in *.
  - rewrite Hbad. reflexivity.
  - inversion Hhs as [| ? ? Hh Hhs']; subst. rewrite Hh. cbn [negb].
    apply (IH hs _ inp rest (S k) Hhs'); [lia | exact Hbad |].
    replace (S (S k)) with (S k + length [h])%nat by (cbn; lia).
    apply (skipn_more inp [h] _ _ Hin).
Qed.

Lemma readUnicode_short (inp hs rest : GoString) (k : nat) :
  all_hex hs -> (length hs < 4)%nat -> isHexDigit (hd 0 rest) = false ->
  skipn (S k) inp = hs ++ rest ->
  readUnicode (at_index inp k) = Err (Errorf "invalid Unicode escpae sequence" []).
Proof.
  intros Hhs Hlen Hbad Hin. unfold readUnicode.
  rewrite (readUnicode_loop_short 4 hs [] inp rest k Hhs Hlen Hbad Hin). reflexivity.
Qed.

Lemma quote_not_space (rest : GoString) : isWhiteSpace (hd 0 (quote :: rest)) = false.
Proof. reflexivity. Qed.

(** X6.  A string literal that is not closed before the end of the input, or
    before a byte 0, is the error [unterminated string]. *)
Theorem tokenize2_unterminated_string (xs : list (GoString * lexeme))
    (ws stop : GoString) (body : list item) :
  spaced_ok xs -> all_space ws -> Forall item_ok body -> hd 0 stop = 0 ->
  tokenize2 (spaced_text xs ++ ws ++ quote :: items_text body ++ stop)
  = Err (Errorf "unterminated string" []).
Proof.
  intros Hok Hws Hbody Hstop.
  destruct (tokenize2_round_after xs ws (quote :: items_text body ++ stop)
              Hok Hws (quote_not_space _))
    as (fuel & inp & k & Hin & _ & ->).
  destruct (Tokenize_round_string_after (lexeme_tokens xs) inp stop k body Hbody Hin)
    as (fuel' & ->).
  rewrite readString_loop_nul; [reflexivity |].
  assert (H : skipn (S (k + length (items_text body))) inp = stop).
  { replace (S (k + length (items_text body)))
      with (k + length (quote :: items_text body))%nat by (cbn; lia).
    apply (skipn_more inp (quote :: items_text body) stop k Hin). }
  rewrite (ch_at_index _ _ _ H). exact Hstop.
Qed.

(** X7.  A backslash followed by a character that is no escape is an error
    that carries that character (0 at the end of the input). *)
Theorem tokenize2_bad_escape (xs : list (GoString * lexeme))
    (ws rest : GoString) (body : list item) :
  spaced_ok xs -> all_space ws -> Forall item_ok body ->
  simple_escape (hd 0 rest) = None -> hd 0 rest <> chr "u" ->
  tokenize2 (spaced_text xs ++ ws ++ quote :: items_text body ++ backslash :: rest)
  = Err (NewUnexpectedCharacterError (hd 0 rest)).
Proof.
  intros Hok Hws Hbody Hnone Hnu.
  destruct (tokenize2_round_after xs ws
              (quote :: items_text body ++ backslash :: rest)
              Hok Hws (quote_not_space _))
    as (fuel & inp & k & Hin & _ & ->).
  destruct (Tokenize_round_string_after (lexeme_tokens xs) inp _ k body Hbody Hin)
    as (fuel' & ->).
  assert (H : skipn (S (k + length (items_text body))) inp = backslash :: rest).
  { replace (S (k + length (items_text body)))
      with (k + length (quote :: items_text body))%nat by (cbn; lia).
    apply (skipn_more inp (quote :: items_text body) _ k Hin). }
  assert (Hc : ch (readChar (at_index inp (S (k + length (items_text body)))))
               = hd 0 rest).
  { rewrite readChar_at_index. apply ch_at_index.
    replace (S (S (k + length (items_text body))))
      with (S (k + length (items_text body)) + length [backslash])%nat by (cbn; lia).
    apply (skipn_more inp [backslash] rest _ H). }
  rewrite readString_loop_bad_escape; rewrite ?Hc; try assumption; [reflexivity |].
  apply (ch_at_index _ _ _ H).
Qed.

(** X8.  A [\u] escape with fewer than four hexadecimal digits is the error
    [invalid Unicode escpae sequence]. *)
Theorem tokenize2_short_unicode_escape (xs : list (GoString * lexeme))
    (ws hs rest : GoString) (body : list item) :
  spaced_ok xs -> all_space ws -> Forall item_ok body ->
  all_hex hs -> (length hs < 4)%nat -> isHexDigit (hd 0 rest) = false ->
  tokenize2 (spaced_text xs ++ ws ++ quote :: items_text body
             ++ backslash :: chr "u" :: hs ++ rest)
  = Err (Errorf "invalid Unicode escpae sequence" []).
Proof.
  intros Hok Hws Hbody Hhs Hlen Hbad.
  destruct (tokenize2_round_after xs ws
              (quote :: items_text body ++ backslash :: chr "u" :: hs ++ rest)
              Hok Hws (quote_not_space _))
    as (fuel & inp & k & Hin & _ & ->).
  destruct (Tokenize_round_string_after (lexeme_tokens xs) inp _ k body Hbody Hin)
    as (fuel' & ->).
  set (j := S (k + length (items_text body))).
  assert (H : skipn j inp = backslash :: chr "u" :: hs ++ rest).
  { replace j with (k + length (quote :: items_text body))%nat by (cbn; lia).
    apply (skipn_more inp (quote :: items_text body) _ k Hin). }
  rewrite readString_loop_unicode.
  - rewrite readChar_at_index.
    rewrite (readUnicode_short inp hs rest (S j) Hhs Hlen Hbad); [reflexivity |].
    replace (S (S j)) with (j + length [backslash; chr "u"])%nat by (cbn; lia).
    apply (skipn_more inp [backslash; chr "u"] _ _ H).
  - apply (ch_at_index _ _ _ H).
  - rewrite readChar_at_index. cbn [at_index ch].
    replace (S j) with (j + 1)%nat by lia. apply (nth_skipn_eq _ _ _ 1 H).
Qed.

(** X9.  String literals: every item of the body gives one byte of the
    literal, in order. *)
Theorem tokenize2_string_literal (body : list item) :
  Forall item_ok body ->
  tokenize2 (quoted (items_text body))
  = Ok [mkToken TokenString (map item_byte body); mkToken TokenEOF []].
Proof.
  intros Hbody.
  pose proof (tokenize2_spaced_lexemes [([], LString body)] [] []) as H.
  unfold spaced_text, lexeme_tokens in H.
  cbn [map concat fst snd lexeme_text lexeme_token app] in H.
  rewrite !app_nil_r in H. apply H.
  - constructor; [| constructor]. split; [constructor | exact Hbody].
  - constructor.
  - reflexivity.
Qed.

(** X10.  readUnicode either returns a code point from 0 to 0xFFFF, with the
    lexer four characters further, or the error of its loop; the error
    after [fmt.Sscanf] is never returned. *)
Theorem readUnicode_result (l : Lexer) :
  (exists v : Z,
      readUnicode l = Ok (v, Nat.iter 4 readChar l) /\ 0 <= v <= 0xFFFF)
  \/ readUnicode l = Err (Errorf "invalid Unicode escpae sequence" []).
Proof.
  unfold readUnicode. cbn [readUnicode_loop Nat.iter].
  set (l1 := readChar l). set (l2 := readChar l1).
  set (l3 := readChar l2). set (l4 := readChar l3).
  destruct (isHexDigit (ch l1)) eqn:E1; cbn [negb]; [| right; reflexivity].
  destruct (isHexDigit (ch l2)) eqn:E2; cbn [negb]; [| right; reflexivity].
  destruct (isHexDigit (ch l3)) eqn:E3; cbn [negb]; [| right; reflexivity].
  destruct (isHexDigit (ch l4)) eqn:E4; cbn [negb]; [| right; reflexivity].
  left. rewrite !EncodeRune_hexDigit by assumption. cbn [app].
  unfold Sscanf_04x. cbn [scanHex].
  rewrite !isHexDigit_value by assumption.
  eexists. split; [reflexivity |].
  pose proof (hexVal_range _ E1). pose proof (hexVal_range _ E2).
  pose proof (hexVal_range _ E3). pose proof (hexVal_range _ E4). lia.
Qed.

End Lexer2_lexemes.

Lemma tokenize2_lexemes_witness :
  tokenize2 (spaced_text example_lexemes ++ [chr "010"] ++ [])
  = Ok (lexeme_tokens example_lexemes ++ [Lexer2.mkToken TokenEOF []]).
Proof.
  apply tokenize2_lexemes.
  - repeat constructor; discriminate.
  - repeat constructor.
  - reflexivity.
Defined.

Lemma tokenize2_last_number_witness :
  tokenize2 (spaced_text [([], LPunct PColon)] ++ [chr " "]
             ++ number_text (mkNumber true [] None))
  = Ok (lexeme_tokens [([], LPunct PColon)]
        ++ [Lexer2.mkToken TokenNumber (number_text (mkNumber true [] None));
            Lexer2.mkToken TokenEOF []]).
Proof.
  apply tokenize2_last_number.
  - repeat constructor.
  - repeat constructor.
  - split; [constructor |]. split; [exact I | left; reflexivity].
Defined.

Lemma tokenize2_punct_after_number_lost_witness :
  tokenize2 (number_text (mkNumber false [chr "4"; chr "2"] None)
             ++ [punct_char PRightBrace])
  = Ok [Lexer2.mkToken TokenNumber (number_text (mkNumber false [chr "4"; chr "2"] None));
        Lexer2.mkToken TokenEOF []].
Proof.
  apply tokenize2_punct_after_number_lost.
  split; [repeat constructor |]. split; [exact I | right; discriminate].
Defined.

Lemma tokenize2_word_error_witness :
  tokenize2 (spaced_text [([], LPunct PLeftBrace)] ++ [] ++ bytes "tru" ++ bytes "}")
  = Err (NewUnexpectedCharacterError (hd 0 (bytes "}"))).
Proof.
  apply tokenize2_word_error; try discriminate; try reflexivity.
  - repeat constructor.
  - constructor.
  - repeat constructor.
  - split; reflexivity.
Defined.

Lemma tokenize2_unknown_character_witness :
  tokenize2 (spaced_text [([], LPunct PColon)] ++ [chr " "] ++ chr "[" :: bytes "1]")
  = Err (NewUnexpectedCharacterError (chr "[")).
Proof.
  apply tokenize2_unknown_character.
  - repeat constructor.
  - repeat constructor.
  - unfold starts_nothing. repeat split; try discriminate; reflexivity.
Defined.

Lemma tokenize2_unterminated_string_witness :
  tokenize2 (spaced_text [([], LPunct PLeftBrace)] ++ [] ++ quote
             :: items_text example_body ++ [])
  = Err (Errorf "unterminated string" []).
Proof.
  apply tokenize2_unterminated_string.
  - repeat constructor.
  - constructor.
  - repeat constructor; discriminate.
  - reflexivity.
Defined.

Lemma tokenize2_bad_escape_witness :
  tokenize2 (spaced_text [] ++ [] ++ quote :: items_text example_body
             ++ backslash :: bytes "x")
  = Err (NewUnexpectedCharacterError (hd 0 (bytes "x"))).
Proof.
  apply tokenize2_bad_escape.
  - constructor.
  - constructor.
  - repeat constructor; discriminate.
  - reflexivity.
  - discriminate.
Defined.

Lemma tokenize2_short_unicode_escape_witness :
  tokenize2 (spaced_text [] ++ [] ++ quote :: items_text example_body
             ++ backslash :: chr "u" :: bytes "00e" ++ [quote])
  = Err (Errorf "invalid Unicode escpae sequence" []).
Proof.
  apply tokenize2_short_unicode_escape.
  - constructor.
  - constructor.
  - repeat constructor; discriminate.
  - repeat constructor.
  - cbn. lia.
  - reflexivity.
Defined.

Lemma tokenize2_string_literal_witness :
  tokenize2 (quoted (items_text example_body))
  = Ok [Lexer2.mkToken TokenString (map item_byte example_body);
        Lexer2.mkToken TokenEOF []].
Proof.
  apply tokenize2_string_literal.
  repeat constructor; discriminate.
Defined.

(** ** The first version: what Tokenize returns *)

Section Lexer1_tokens.

Variable Digit : Z -> bool.

(** X11.  peekChar returns the character the next readChar makes current. *)
Theorem peekChar_readChar (l : Lexer1.Lexer) :
  Lexer1.peekChar l = Lexer1.ch (Lexer1.readChar l).
Proof.
  unfold Lexer1.peekChar, Lexer1.readChar.
  destruct (length (Lexer1.input l) <=? Lexer1.readPosition l)%nat; [reflexivity |].
  destruct (DecodeLastRuneInString _) as [r size]. cbn [fst].
  destruct (r =? chr "010"); reflexivity.
Qed.

(** X12.  Inside the input, readChar makes the last character of the input the
    current character, whatever the read position is, and moves the read
    position by two (here for an input that ends in an ASCII character). *)
Theorem readChar_last_character (l : Lexer1.Lexer) (s : GoString) (b : Z) :
  Lexer1.input l = s ++ [b] -> 0 <= b < 0x80 ->
  (Lexer1.readPosition l < length (Lexer1.input l))%nat ->
  Lexer1.ch (Lexer1.readChar l) = b
  /\ Lexer1.readPosition (Lexer1.readChar l) = (Lexer1.readPosition l + 2)%nat.
Proof. apply readChar_reads_last. Qed.

Lemma NewLexer_after_reads (s : GoString) (b : Z) :
  0 < b < 128 -> b <> 10 ->
  Lexer1.NewLexer (s ++ [b]) = after_reads (s ++ [b]) b 0.
Proof.
  intros Hb Hnl. unfold Lexer1.NewLexer, Lexer1.readChar. cbn [Lexer1.input Lexer1.readPosition].
  rewrite length_app. cbn [length].
  replace (length s + 1 <=? 0)%nat with false by (symmetry; apply Nat.leb_gt; lia).
  rewrite skipn_O, DecodeLastRuneInString_ascii by lia.
  change (chr "010") with 10.
  replace (b =? 10) with false by (symmetry; apply Z.eqb_neq; exact Hnl).
  reflexivity.
Qed.

Lemma readChar_after_reads (s : GoString) (b : Z) (j : nat) :
  0 < b < 128 -> b <> 10 ->
  Lexer1.readChar (after_reads (s ++ [b]) b j)
  = if (2 * j + 2 <? length s + 1)%nat
    then after_reads (s ++ [b]) b (S j)
    else after_end (s ++ [b]) j.
Proof.
  intros Hb Hnl. unfold Lexer1.readChar, after_reads.
  cbn [Lexer1.input Lexer1.readPosition Lexer1.position Lexer1.ch Lexer1.line
       Lexer1.column].
  rewrite length_app. cbn [length].
  destruct (2 * j + 2 <? length s + 1)%nat eqn:E.
  - apply Nat.ltb_lt in E.
    replace (length s + 1 <=? 2 * j + 2)%nat with false
      by (symmetry; apply Nat.leb_gt; lia).
    rewrite skipn_app.
    replace (2 * j + 2 - length s)%nat with 0%nat by lia.
    rewrite skipn_O, DecodeLastRuneInString_ascii by lia.
    change (chr "010") with 10.
    replace (b =? 10) with false by (symmetry; apply Z.eqb_neq; exact Hnl).
    cbn [Lexer1.input Lexer1.readPosition Lexer1.ch Lexer1.line Lexer1.column].
    unfold after_reads. f_equal; lia.
  - apply Nat.ltb_ge in E.
    replace (length s + 1 <=? 2 * j + 2)%nat with true
      by (symmetry; apply Nat.leb_le; lia).
    cbn [Lexer1.input Lexer1.readPosition Lexer1.ch Lexer1.line Lexer1.column].
    unfold after_end. f_equal; lia.
Qed.

Lemma half_bounds (n : nat) : (2 * (n / 2) <= n < 2 * (n / 2) + 2)%nat.
Proof.
  pose proof (Nat.div_mod_eq n 2). pose proof (Nat.mod_upper_bound n 2). lia.
Qed.

(** Tokenize's loop when every round on the character [b] appends one
    token and calls readChar once: one token for every second character of
    the input, whatever the characters are. *)
Lemma Tokenize_loop_uniform (mk : Z -> Z -> Lexer1.Token) (s : GoString) (b : Z) :
  0 < b < 128 -> b <> 10 ->
  (forall tokens l, Lexer1.ch l = b ->
     Lexer1.Tokenize_round Digit tokens l
     = Ok (tokens ++ [mk (Lexer1.line l) (Lexer1.column l)], Lexer1.readChar l)) ->
  forall (d j : nat) (tokens : list Lexer1.Token) (fuel : nat),
    (j + d = length s / 2)%nat -> (d + 2 <= fuel)%nat ->
    Lexer1.Tokenize_loop Digit fuel tokens (after_reads (s ++ [b]) b j)
    = Ok (tokens ++ map (fun i => mk 1 (Z.of_nat i)) (seq (S j) (S d))
          ++ [Lexer1.mkToken TokenEOF [] 1 (Z.of_nat (S (j + d)))]).
Proof.
  intros Hb Hnl Hround. pose proof (half_bounds (length s)) as Hhalf.
  induction d as [| d IH]; intros j tokens fuel Hj Hfuel.
  - destruct fuel as [| [| fuel]]; [lia | lia |].
    cbn [Lexer1.Tokenize_loop]. unfold after_reads at 1. cbn [Lexer1.ch].
    replace (b =? 0) with false by (symmetry; apply Z.eqb_neq; lia).
    rewrite Hround by reflexivity. rewrite readChar_after_reads by assumption.
    replace (2 * j + 2 <? length s + 1)%nat with false
      by (symmetry; apply Nat.ltb_ge; lia).
    unfold after_end at 1. cbn [Lexer1.ch]. change (0 =? 0) with true. cbv iota.
    unfold after_reads, after_end.
    cbn [Lexer1.line Lexer1.column seq map]. rewrite Nat.add_0_r, <- app_assoc.
    reflexivity.
  - destruct fuel as [| fuel]; [lia |].
    cbn [Lexer1.Tokenize_loop]. unfold after_reads at 1. cbn [Lexer1.ch].
    replace (b =? 0) with false by (symmetry; apply Z.eqb_neq; lia).
    rewrite Hround by reflexivity. rewrite readChar_after_reads by assumption.
    replace (2 * j + 2 <? length s + 1)%nat with true
      by (symmetry; apply Nat.ltb_lt; lia).
    rewrite (IH (S j)) by lia.
    unfold after_reads. cbn [Lexer1.line Lexer1.column].
    rewrite <- app_assoc. cbn [seq map app].
    replace (S (S j + d)) with (S (j + S d)) by lia. reflexivity.
Qed.

Lemma tokenize1_uniform (mk : Z -> Z -> Lexer1.Token) (s : GoString) (b : Z) :
  0 < b < 128 -> b <> 10 ->
  (forall tokens l, Lexer1.ch l = b ->
     Lexer1.Tokenize_round Digit tokens l
     = Ok (tokens ++ [mk (Lexer1.line l) (Lexer1.column l)], Lexer1.readChar l)) ->
  tokenize1 Digit (s ++ [b])
  = Ok (map (fun i => mk 1 (Z.of_nat i)) (seq 1 (S (length s / 2)))
        ++ [Lexer1.mkToken TokenEOF [] 1 (Z.of_nat (S (length s / 2)))]).
Proof.
  intros Hb Hnl Hround. unfold tokenize1, Lexer1.Tokenize.
  rewrite NewLexer_after_reads by assumption.
  pose proof (half_bounds (length s)) as Hhalf.
  rewrite (Tokenize_loop_uniform mk s b Hb Hnl Hround (length s / 2) 0 []).
  - reflexivity.
  - reflexivity.
  - unfold Lexer1.fuelOf, after_reads. cbn [Lexer1.input].
    rewrite length_app. cbn [length]. lia.
Qed.

Lemma Tokenize_round_punct1 (tokens : list Lexer1.Token) (l : Lexer1.Lexer)
    (p : punct1) :
  Lexer1.ch l = punct1_char p ->
  Lexer1.Tokenize_round Digit tokens l
  = Ok (tokens ++ [Lexer1.mkToken (punct1_type p) [punct1_char p]
                     (Lexer1.line l) (Lexer1.column l)],
        Lexer1.readChar l).
Proof.
  intros H. unfold Lexer1.Tokenize_round, Lexer1.skipWhitespace, Lexer1.fuelOf.
  cbn [Lexer1.readWhile]. rewrite H.
  destruct p;
    match goal with
    | |- context [IsSpace (punct1_char ?q)] =>
      change (IsSpace (punct1_char q)) with false
    end; cbv iota zeta; rewrite H; reflexivity.
Qed.

(** X13.  A text that ends in a punctuation character is tokenized to that
    punctuation token, once for every second character of the text, with
    the columns 1, 2, 3, ...; the other characters of the text are never
    looked at. *)
Theorem tokenize1_punct_ending (s : GoString) (p : punct1) :
  tokenize1 Digit (s ++ [punct1_char p])
  = Ok (map (fun i => Lexer1.mkToken (punct1_type p) [punct1_char p] 1 (Z.of_nat i))
            (seq 1 (S (length s / 2)))
        ++ [Lexer1.mkToken TokenEOF [] 1 (Z.of_nat (S (length s / 2)))]).
Proof.
  apply (tokenize1_uniform
           (fun line column => Lexer1.mkToken (punct1_type p) [punct1_char p] line column)).
  - destruct p; split; reflexivity.
  - destruct p; discriminate.
  - intros tokens l H. apply Tokenize_round_punct1, H.
Qed.

(** X14.  A text that ends in a digit is tokenized to number tokens with the
    empty literal, one for every second character of the text. *)
Theorem tokenize1_digit_ending (s : GoString) (d : Z) :
  48 <= d <= 57 ->
  tokenize1 Digit (s ++ [d])
  = Ok (map (fun i => Lexer1.mkToken TokenNumber [] 1 (Z.of_nat i))
            (seq 1 (S (length s / 2)))
        ++ [Lexer1.mkToken TokenEOF [] 1 (Z.of_nat (S (length s / 2)))]).
Proof.
  intros Hd.
  apply (tokenize1_uniform (fun line column => Lexer1.mkToken TokenNumber [] line column));
    [lia | lia |].
  intros tokens l H. apply (Tokenize_round_on_digit Digit). rewrite H. exact Hd.
Qed.

(** X15.  A text that ends in an ASCII character on which no production
    starts is rejected at once, and the arguments of the message are the
    character, line 1 and column 1 in this order, wherever the character
    stands in the text. *)
Theorem tokenize1_unknown_character (s : GoString) (c : Z) :
  starts_nothing1 c ->
  tokenize1 Digit (s ++ [c])
  = Err (Errorf "Lexer error at line %d, column %d: unexpected character: %c"
                [AInt c; AInt 1; AInt 1]).
Proof.
  intros (Hc & Hs & H1 & H2 & H3 & H4 & H5 & H6 & H7 & H8 & H9 & H10 & H11 & Hd).
  assert (Hnl : c <> 10) by (intros ->; discriminate).
  unfold tokenize1, Lexer1.Tokenize. rewrite NewLexer_after_reads by assumption.
  unfold Lexer1.fuelOf. cbn [Lexer1.Tokenize_loop].
  unfold after_reads at 1. cbn [Lexer1.ch].
  replace (c =? 0) with false by (symmetry; apply Z.eqb_neq; lia).
  unfold Lexer1.Tokenize_round, Lexer1.skipWhitespace, Lexer1.fuelOf.
  cbn [Lexer1.readWhile]. unfold after_reads at 1. cbn [Lexer1.ch].
  rewrite Hs. cbv zeta. unfold after_reads. cbn [Lexer1.ch Lexer1.line Lexer1.column].
  apply Z.eqb_neq in H1, H2, H3, H4, H5, H6, H7, H8, H9, H10, H11.
  rewrite H1, H2, H3, H4, H5, H6, H7, H8, H9, H10.
  unfold Lexer1.isStartOfNumber, Lexer1.IsDigit, MaxLatin1. rewrite H11.
  replace (c <=? 255) with true by (symmetry; apply Z.leb_le; lia).
  change (chr "0") with 48. change (chr "9") with 57.
  replace ((48 <=? c) && (c <=? 57)) with false; [reflexivity |].
  symmetry. apply andb_false_iff.
  destruct (Z.le_gt_cases 48 c); [right | left]; [apply Z.leb_gt | apply Z.leb_gt]; lia.
Qed.

(** X16.  A text that ends in a minus is rejected with readNumber's error
    for a minus without digit; the column that is reported grows with the
    length of the text up to 3. *)
Theorem tokenize1_minus_ending (s : GoString) :
  tokenize1 Digit (s ++ [chr "-"])
  = Err (Errorf "Lexer error at line %d, column %d: %v"
                [AInt 1; AInt (Z.of_nat (S (Nat.min 2 (length s / 2))));
                 AStr (bytes "invalid number format: expected digit after '-'")]).
Proof.
  assert (Hb : 0 < chr "-" < 128) by (split; reflexivity).
  assert (Hnl : chr "-" <> 10) by discriminate.
  pose proof (half_bounds (length s)) as Hhalf.
  unfold tokenize1, Lexer1.Tokenize. rewrite NewLexer_after_reads by assumption.
  unfold Lexer1.fuelOf. cbn [Lexer1.Tokenize_loop].
  unfold Lexer1.Tokenize_round, Lexer1.skipWhitespace, Lexer1.fuelOf.
  cbn [Lexer1.readWhile].
  change (Lexer1.ch (after_reads (s ++ [chr "-"]) (chr "-") 0)) with (chr "-").
  change (chr "-" =? 0) with false. change (IsSpace (chr "-")) with false.
  cbv iota zeta.
  change (Lexer1.ch (after_reads (s ++ [chr "-"]) (chr "-") 0)) with (chr "-").
  change (chr "-" =? chr "{") with false. change (chr "-" =? chr "}") with false.
  change (chr "-" =? chr "[") with false. change (chr "-" =? chr "]") with false.
  change (chr "-" =? chr ":") with false. change (chr "-" =? chr ",") with false.
  change (chr "-" =? quote) with false. change (chr "-" =? chr "t") with false.
  change (chr "-" =? chr "f") with false. change (chr "-" =? chr "n") with false.
  cbv iota.
  replace (Lexer1.isStartOfNumber Digit (chr "-")) with true by reflexivity.
  unfold Lexer1.readNumber, Lexer1.consumeMinus.
  change (Lexer1.ch (after_reads (s ++ [chr "-"]) (chr "-") 0)) with (chr "-").
  change (chr "-" =? chr "-") with true. cbv iota.
  rewrite readChar_after_reads by assumption.
  destruct (2 * 0 + 2 <? length s + 1)%nat eqn:E1.
  - apply Nat.ltb_lt in E1. cbv zeta.
    change (Lexer1.ch (after_reads (s ++ [chr "-"]) (chr "-") 1)) with (chr "-").
    change (chr "-" =? chr "-") with true. cbv iota.
    rewrite readChar_after_reads by assumption.
    destruct (2 * 1 + 2 <? length s + 1)%nat eqn:E2.
    + apply Nat.ltb_lt in E2.
      change (Lexer1.ch (after_reads (s ++ [chr "-"]) (chr "-") 2)) with (chr "-").
      replace (Lexer1.IsDigit Digit (chr "-")) with false by reflexivity.
      cbn [negb]. unfold after_reads. cbn [Lexer1.line Lexer1.column].
      replace (Nat.min 2 (length s / 2)) with 2%nat by lia. reflexivity.
    + apply Nat.ltb_ge in E2.
      change (Lexer1.ch (after_end (s ++ [chr "-"]) 1)) with 0.
      replace (Lexer1.IsDigit Digit 0) with false by reflexivity.
      cbn [negb]. unfold after_end. cbn [Lexer1.line Lexer1.column].
      replace (Nat.min 2 (length s / 2)) with 1%nat by lia. reflexivity.
  - apply Nat.ltb_ge in E1. cbv zeta.
    change (Lexer1.ch (after_end (s ++ [chr "-"]) 0)) with 0.
    change (0 =? chr "-") with false. cbv iota.
    replace (Lexer1.IsDigit Digit 0) with false by reflexivity.
    cbn [negb]. unfold after_end. cbn [Lexer1.line Lexer1.column].
    replace (Nat.min 2 (length s / 2)) with 0%nat by lia. reflexivity.
Qed.

Lemma Tokenize_round_quote1 (tokens : list Lexer1.Token) (l : Lexer1.Lexer) :
  Lexer1.ch l = quote ->
  Lexer1.Tokenize_round Digit tokens l
  = match Lexer1.readString l with
    | Ok (str, l') =>
      Ok (tokens ++ [Lexer1.mkToken TokenString str (Lexer1.line l') (Lexer1.column l')],
          l')
    | Err e => Err e
    | Timeout => Timeout
    end.
Proof.
  intros H. unfold Lexer1.Tokenize_round, Lexer1.skipWhitespace, Lexer1.fuelOf.
  cbn [Lexer1.readWhile]. rewrite H. change (IsSpace quote) with false.
  cbv iota zeta. rewrite H. reflexivity.
Qed.

(** readString entered on the closing quote of the text: the empty literal
    when two more characters can be read, an unterminated string when not. *)
Lemma readString_after_reads (s : GoString) (j : nat) :
  Lexer1.readString (after_reads (s ++ [quote]) quote j)
  = if (2 * j + 2 <? length s + 1)%nat
    then Ok ([], if (2 * S j + 2 <? length s + 1)%nat
                 then after_reads (s ++ [quote]) quote (S (S j))
                 else after_end (s ++ [quote]) (S j))
    else Err (Errorf "unterminated string" []).
Proof.
  assert (Hb : 0 < quote < 128) by (split; reflexivity).
  assert (Hnl : quote <> 10) by discriminate.
  unfold Lexer1.readString, Lexer1.fuelOf. cbn [Lexer1.readString_loop].
  rewrite readChar_after_reads by assumption.
  destruct (2 * j + 2 <? length s + 1)%nat.
  - change (Lexer1.ch (after_reads (s ++ [quote]) quote (S j))) with quote.
    change (quote =? quote) with true. cbv iota.
    rewrite readChar_after_reads by assumption. reflexivity.
  - reflexivity.
Qed.

Lemma Tokenize_loop_quote_even (s : GoString) (m : nat) :
  forall (j : nat) (tokens : list Lexer1.Token) (fuel : nat),
    (j + 2 * m = length s / 2)%nat -> (m + 1 <= fuel)%nat ->
    Lexer1.Tokenize_loop Digit fuel tokens (after_reads (s ++ [quote]) quote j)
    = Err (Errorf "unterminated string" []).
Proof.
  pose proof (half_bounds (length s)) as Hhalf.
  induction m as [| m IH]; intros j tokens fuel Hj Hfuel;
    (destruct fuel as [| fuel]; [lia |]);
    cbn [Lexer1.Tokenize_loop];
    change (Lexer1.ch (after_reads (s ++ [quote]) quote j)) with quote;
    change (quote =? 0) with false; cbv iota;
    rewrite Tokenize_round_quote1 by reflexivity;
    rewrite readString_after_reads.
  - replace (2 * j + 2 <? length s + 1)%nat with false
      by (symmetry; apply Nat.ltb_ge; lia).
    reflexivity.
  - replace (2 * j + 2 <? length s + 1)%nat with true
      by (symmetry; apply Nat.ltb_lt; lia).
    replace (2 * S j + 2 <? length s + 1)%nat with true
      by (symmetry; apply Nat.ltb_lt; lia).
    apply IH; lia.
Qed.

Lemma Tokenize_loop_quote_odd (s : GoString) (m : nat) :
  forall (j : nat) (tokens : list Lexer1.Token) (fuel : nat),
    (j + 2 * m + 1 = length s / 2)%nat -> (m + 2 <= fuel)%nat ->
    Lexer1.Tokenize_loop Digit fuel tokens (after_reads (s ++ [quote]) quote j)
    = Ok (tokens
          ++ map (fun i => Lexer1.mkToken TokenString [] 1 (Z.of_nat (j + 2 * i + 3)))
                 (seq 0 m)
          ++ [Lexer1.mkToken TokenString [] 1 (Z.of_nat (j + 2 * m + 2));
              Lexer1.mkToken TokenEOF [] 1 (Z.of_nat (j + 2 * m + 2))]).
Proof.
  pose proof (half_bounds (length s)) as Hhalf.
  induction m as [| m IH]; intros j tokens fuel Hj Hfuel;
    (destruct fuel as [| fuel]; [lia |]);
    cbn [Lexer1.Tokenize_loop];
    change (Lexer1.ch (after_reads (s ++ [quote]) quote j)) with quote;
    change (quote =? 0) with false; cbv iota;
    rewrite Tokenize_round_quote1 by reflexivity;
    rewrite readString_after_reads;
    (replace (2 * j + 2 <? length s + 1)%nat with true
      by (symmetry; apply Nat.ltb_lt; lia)).
  - replace (2 * S j + 2 <? length s + 1)%nat with false
      by (symmetry; apply Nat.ltb_ge; lia).
    destruct fuel as [| fuel]; [lia |]. cbn [Lexer1.Tokenize_loop].
    change (Lexer1.ch (after_end (s ++ [quote]) (S j))) with 0.
    change (0 =? 0) with true. cbv iota.
    unfold after_end. cbn [Lexer1.line Lexer1.column seq map app].
    rewrite <- app_assoc. cbn [app].
    replace (j + 2 * 0 + 2)%nat with (S (S j)) by lia. reflexivity.
  - replace (2 * S j + 2 <? length s + 1)%nat with true
      by (symmetry; apply Nat.ltb_lt; lia).
    rewrite (IH (S (S j))) by lia.
    unfold after_reads. cbn [Lexer1.line Lexer1.column].
    rewrite <- app_assoc. cbn [seq map app].
    rewrite <- seq_shift, map_map.
    replace (S (S j) + 2 * m + 2)%nat with (j + 2 * S m + 2)%nat by lia.
    replace (j + 2 * 0 + 3)%nat with (S (S (S j))) by lia.
    do 4 f_equal. apply map_ext. intros i. do 2 f_equal. lia.
Qed.

(** X17.  A text that ends in a double quote, of length 4m+1 or 4m+2, is
    rejected as an unterminated string, whatever the text is; the empty
    string literal is such a text. *)
Theorem tokenize1_quote_ending_unterminated (s : GoString) (m : nat) :
  (length s / 2 = 2 * m)%nat ->
  tokenize1 Digit (s ++ [quote]) = Err (Errorf "unterminated string" []).
Proof.
  intros Hm. unfold tokenize1, Lexer1.Tokenize.
  rewrite NewLexer_after_reads by (try split; try reflexivity; discriminate).
  pose proof (half_bounds (length s)) as Hhalf.
  apply (Tokenize_loop_quote_even s m 0); [lia |].
  unfold Lexer1.fuelOf, after_reads. cbn [Lexer1.input]. rewrite length_app.
  cbn [length]. lia.
Qed.

(** X18.  A text that ends in a double quote, of length 4m+3 or 4m+4, is
    tokenized to m+1 string tokens, all with the empty literal: no
    character between quotes ever reaches a literal. *)
Theorem tokenize1_quote_ending_strings (s : GoString) (m : nat) :
  (length s / 2 = 2 * m + 1)%nat ->
  tokenize1 Digit (s ++ [quote])
  = Ok (map (fun i => Lexer1.mkToken TokenString [] 1 (Z.of_nat (2 * i + 3))) (seq 0 m)
        ++ [Lexer1.mkToken TokenString [] 1 (Z.of_nat (2 * m + 2));
            Lexer1.mkToken TokenEOF [] 1 (Z.of_nat (2 * m + 2))]).
Proof.
  intros Hm. unfold tokenize1, Lexer1.Tokenize.
  rewrite NewLexer_after_reads by (try split; try reflexivity; discriminate).
  pose proof (half_bounds (length s)) as Hhalf.
  rewrite (Tokenize_loop_quote_odd s m 0 []).
  - reflexivity.
  - lia.
  - unfold Lexer1.fuelOf, after_reads. cbn [Lexer1.input]. rewrite length_app.
    cbn [length]. lia.
Qed.

(** X20.  A text that ends in [t] is rejected in the first round unless its
    characters 2 to 5 are [true]: peekKeyWord compares the text from the
    read position, which is two past the start, and not the current
    character and what follows it. *)
Theorem tokenize1_t_ending_rejected (s : GoString) :
  slice (s ++ [chr "t"]) 2 6 <> bytes "true" ->
  tokenize1 Digit (s ++ [chr "t"])
  = Err (Errorf "Lexer error at line %d, column %d: invalid token starting with 't'"
                [AInt 1; AInt 1]).
Proof.
  intros Hne.
  unfold tokenize1, Lexer1.Tokenize.
  rewrite NewLexer_after_reads by (try split; try reflexivity; discriminate).
  unfold Lexer1.fuelOf. cbn [Lexer1.Tokenize_loop].
  change (Lexer1.ch (after_reads (s ++ [chr "t"]) (chr "t") 0)) with (chr "t").
  change (chr "t" =? 0) with false. cbv iota.
  unfold Lexer1.Tokenize_round, Lexer1.skipWhitespace, Lexer1.fuelOf.
  cbn [Lexer1.readWhile].
  change (Lexer1.ch (after_reads (s ++ [chr "t"]) (chr "t") 0)) with (chr "t").
  change (IsSpace (chr "t")) with false. cbv iota zeta.
  change (Lexer1.ch (after_reads (s ++ [chr "t"]) (chr "t") 0)) with (chr "t").
  change (chr "t" =? chr "{") with false. change (chr "t" =? chr "}") with false.
  change (chr "t" =? chr "[") with false. change (chr "t" =? chr "]") with false.
  change (chr "t" =? chr ":") with false. change (chr "t" =? chr ",") with false.
  change (chr "t" =? quote) with false. change (chr "t" =? chr "t") with true.
  cbv iota.
  replace (Lexer1.peekKeyWord (after_reads (s ++ [chr "t"]) (chr "t") 0) (bytes "true"))
    with false; [reflexivity |].
  unfold Lexer1.peekKeyWord, after_reads.
  cbn [Lexer1.input Lexer1.readPosition].
  destruct (length (s ++ [chr "t"]) <? 2 * 0 + 2 + length (bytes "true"))%nat;
    [reflexivity |].
  unfold GoString_eqb. symmetry. apply bool_decide_eq_false_2. exact Hne.
Qed.

Lemma lor_shiftl_small (a b : Z) :
  0 <= b < 1024 -> Z.lor (Z.shiftl a 10) b = a * 1024 + b.
Proof.
  intros Hb.
  assert (Hland : Z.land (Z.shiftl a 10) b = 0).
  { apply Z.bits_inj'. intros n Hn. rewrite Z.land_spec, Z.bits_0.
    destruct (Z.lt_ge_cases n 10) as [Hlt | Hge].
    - rewrite Z.shiftl_spec_low by exact Hlt. reflexivity.
    - destruct (Z.eq_dec b 0) as [-> | Hnz]; [rewrite Z.bits_0; apply andb_false_r |].
      rewrite (Z.bits_above_log2 b n), andb_false_r; [reflexivity | lia |].
      apply Z.log2_lt_pow2; [lia |].
      apply Z.lt_le_trans with (2 ^ 10); [lia |].
      apply Z.pow_le_mono_r; lia. }
  rewrite <- Z.lxor_lor by exact Hland.
  rewrite <- Z.add_nocarry_lxor by exact Hland.
  rewrite Z.shiftl_mul_pow2 by lia. reflexivity.
Qed.

(** X21.  A high and a low surrogate always combine to a code point from
    U+10000 to U+10FFFF, so the test of line 327 for the replacement
    character never holds. *)
Theorem surrogate_pair_combined (r1 r2 : Z) :
  Lexer1.isHighSurrogate r1 = true -> Lexer1.isLowSurrogate r2 = true ->
  utf16_DecodeRune r1 r2 = 0x10000 + (r1 - 0xD800) * 0x400 + (r2 - 0xDC00)
  /\ 0x10000 <= utf16_DecodeRune r1 r2 <= MaxRune
  /\ (utf16_DecodeRune r1 r2 =? RuneError) = false.
Proof.
  unfold Lexer1.isHighSurrogate, Lexer1.isLowSurrogate.
  rewrite !andb_true_iff, !Z.leb_le. intros [Hh1 Hh2] [Hl1 Hl2].
  assert (Heq : utf16_DecodeRune r1 r2
                = 0x10000 + (r1 - 0xD800) * 0x400 + (r2 - 0xDC00)).
  { unfold utf16_DecodeRune.
    replace ((55296 <=? r1) && (r1 <? 56320) && (56320 <=? r2) && (r2 <? 57344))
      with true
      by (symmetry; rewrite !andb_true_iff, !Z.leb_le, !Z.ltb_lt; lia).
    rewrite lor_shiftl_small by lia. lia. }
  rewrite Heq. unfold MaxRune, RuneError.
  split; [reflexivity |]. split; [lia |]. apply Z.eqb_neq. lia.
Qed.

(** X22.  No text that ends in a space is tokenized: skipWhitespace runs to the
    end of the input and the switch of Tokenize has no case for the
    character 0, so the round ends in the unexpected-character error. *)
Theorem tokenize1_space_ending (s : GoString) :
  exists line column : Z,
    tokenize1 Digit (s ++ [32])
    = Err (Errorf "Lexer error at line %d, column %d: unexpected character: %c"
                  [AInt 0; AInt line; AInt column]).
Proof. apply trailing_space_always_rejected. Qed.

End Lexer1_tokens.

Lemma readChar_last_character_witness :
  Lexer1.ch (Lexer1.readChar (Lexer1.mkLexer (bytes "ab}") 0 0 0 1 0)) = chr "}"
  /\ Lexer1.readPosition (Lexer1.readChar (Lexer1.mkLexer (bytes "ab}") 0 0 0 1 0))
     = (0 + 2)%nat.
Proof.
  apply (readChar_last_character (Lexer1.mkLexer (bytes "ab}") 0 0 0 1 0)
           (bytes "ab") (chr "}")).
  - reflexivity.
  - split; [discriminate | reflexivity].
  - cbn. lia.
Defined.

Lemma tokenize1_digit_ending_witness :
  tokenize1 (fun _ => false) (bytes "-1." ++ [chr "5"])
  = Ok (map (fun i => Lexer1.mkToken TokenNumber [] 1 (Z.of_nat i))
            (seq 1 (S (length (bytes "-1.") / 2)))
        ++ [Lexer1.mkToken TokenEOF [] 1 (Z.of_nat (S (length (bytes "-1.") / 2)))]).
Proof.
  apply tokenize1_digit_ending. split; discriminate.
Defined.

Lemma tokenize1_unknown_character_witness :
  tokenize1 (fun _ => false) (bytes "{}" ++ [chr "@"])
  = Err (Errorf "Lexer error at line %d, column %d: unexpected character: %c"
                [AInt (chr "@"); AInt 1; AInt 1]).
Proof.
  apply tokenize1_unknown_character.
  unfold starts_nothing1. repeat split; try discriminate; try reflexivity.
  intros [_ H]. apply H. reflexivity.
Defined.

Lemma tokenize1_quote_ending_unterminated_witness :
  tokenize1 (fun _ => false) ([quote] ++ [quote]) = Err (Errorf "unterminated string" []).
Proof.
  apply (tokenize1_quote_ending_unterminated (fun _ => false) [quote] 0).
  reflexivity.
Defined.

Lemma tokenize1_quote_ending_strings_witness :
  tokenize1 (fun _ => false) ((quote :: bytes "abcde") ++ [quote])
  = Ok (map (fun i => Lexer1.mkToken TokenString [] 1 (Z.of_nat (2 * i + 3))) (seq 0 1)
        ++ [Lexer1.mkToken TokenString [] 1 (Z.of_nat (2 * 1 + 2));
            Lexer1.mkToken TokenEOF [] 1 (Z.of_nat (2 * 1 + 2))]).
Proof.
  apply (tokenize1_quote_ending_strings (fun _ => false) (quote :: bytes "abcde") 1).
  reflexivity.
Defined.

Lemma surrogate_pair_combined_witness :
  utf16_DecodeRune 0xD83D 0xDE00 = 0x10000 + (0xD83D - 0xD800) * 0x400 + (0xDE00 - 0xDC00)
  /\ 0x10000 <= utf16_DecodeRune 0xD83D 0xDE00 <= MaxRune
  /\ (utf16_DecodeRune 0xD83D 0xDE00 =? RuneError) = false.
Proof.
  apply surrogate_pair_combined; reflexivity.
Defined.

Lemma tokenize1_t_ending_rejected_witness :
  tokenize1 (fun _ => false) (bytes "true, tes" ++ [chr "t"])
  = Err (Errorf "Lexer error at line %d, column %d: invalid token starting with 't'"
                [AInt 1; AInt 1]).
Proof.
  apply tokenize1_t_ending_rejected. vm_compute. discriminate.
Defined.

(** ** The first version: every text that ends in an ASCII character *)

Section Lexer1_reached.

Variable Digit : Z -> bool.

Lemma readChar_reached (s : GoString) (b : Z) (l : Lexer1.Lexer) :
  0 <= b < 0x80 -> Lexer1.input l = s ++ [b] ->
  reached (s ++ [b]) b (Lexer1.readChar l)
  /\ (Lexer1.readPosition l < Lexer1.readPosition (Lexer1.readChar l))%nat.
Proof.
  intros Hb Hin. unfold reached. rewrite readChar_input.
  destruct (Nat.lt_ge_cases (Lexer1.readPosition l) (length (Lexer1.input l)))
    as [Hlt | Hge].
  - destruct (readChar_reads_last l s b Hin Hb Hlt) as [Hc Hp].
    rewrite Hp, Hc. rewrite Hin in Hlt.
    rewrite length_app in *. cbn [length] in *.
    split; [split; [exact Hin | right; split; [reflexivity | lia]] | lia].
  - split; [split; [exact Hin | left; apply readChar_past_end, Hge] |].
    unfold Lexer1.readChar. apply Nat.leb_le in Hge. rewrite Hge.
    cbn [Lexer1.readPosition]. lia.
Qed.

Lemma advanceBy_reached (s : GoString) (b : Z) (n : nat) (l : Lexer1.Lexer) :
  0 <= b < 0x80 -> reached (s ++ [b]) b l ->
  reached (s ++ [b]) b (Lexer1.advanceBy l n)
  /\ (Lexer1.readPosition l <= Lexer1.readPosition (Lexer1.advanceBy l n))%nat.
Proof.
  intros Hb Hl. unfold Lexer1.advanceBy.
  induction n as [| n [IH1 IH2]]; [split; [exact Hl | apply Nat.le_refl] |].
  change (Nat.iter (S n) Lexer1.readChar l)
    with (Lexer1.readChar (Nat.iter n Lexer1.readChar l)).
  destruct (readChar_reached s b (Nat.iter n Lexer1.readChar l) Hb (proj1 IH1))
    as [H1 H2].
  split; [exact H1 | lia].
Qed.

(** skipWhitespace on a text that ends in a whitespace character runs to
    the end of the input. *)
Lemma readWhile_trailing_whitespace (s : GoString) (b : Z) (fuel : nat) :
  0 <= b < 0x80 -> IsSpace b = true ->
  forall l : Lexer1.Lexer,
    Lexer1.input l = s ++ [b] ->
    Lexer1.ch l = b \/ Lexer1.ch l = 0 ->
    (length (Lexer1.input l) - Lexer1.readPosition l + 2 <= fuel)%nat ->
    exists l', Lexer1.readWhile fuel IsSpace l = Some l' /\ Lexer1.ch l' = 0.
Proof.
  intros Hb Hs.
  induction fuel as [| fuel IH]; intros l Hin Hch Hfuel; [lia |].
  cbn [Lexer1.readWhile]. destruct Hch as [Hch | Hch]; rewrite Hch.
  2: { exists l. split; [reflexivity | exact Hch]. }
  rewrite Hs.
  destruct (Nat.lt_ge_cases (Lexer1.readPosition l) (length (Lexer1.input l)))
    as [Hlt | Hge].
  - destruct (readChar_reads_last l s b Hin Hb Hlt) as [Hc Hp].
    apply IH.
    + rewrite readChar_input. exact Hin.
    + left. exact Hc.
    + rewrite readChar_input, Hp. lia.
  - destruct fuel as [| fuel]; [lia |].
    cbn [Lexer1.readWhile]. rewrite (readChar_past_end l Hge).
    exists (Lexer1.readChar l). split; [reflexivity | apply readChar_past_end, Hge].
Qed.

(** readNumber entered on a minus: whatever follows, the current character
    stays a minus or becomes 0, and the digit test of line 207 fails. *)
Lemma readNumber_on_minus (s : GoString) (l : Lexer1.Lexer) :
  Lexer1.input l = s ++ [chr "-"] -> Lexer1.ch l = chr "-" ->
  exists l',
    Lexer1.readNumber Digit l
    = (Err (Errorf "invalid number format: expected digit after '-'" []), l').
Proof.
  intros Hin Hch.
  assert (Hb : 0 <= chr "-" < 0x80) by (split; [discriminate | reflexivity]).
  unfold Lexer1.readNumber, Lexer1.consumeMinus. rewrite Hch.
  change (chr "-" =? chr "-") with true. cbv iota zeta.
  destruct (readChar_reached s (chr "-") l Hb Hin) as [[Hin1 [H1 | [H1 _]]] _];
    rewrite H1.
  - change (0 =? chr "-") with false. cbv iota beta. rewrite H1.
    eexists. reflexivity.
  - change (chr "-" =? chr "-") with true. cbv iota beta.
    destruct (readChar_reached s (chr "-") (Lexer1.readChar l) Hb Hin1)
      as [[_ [H2 | [H2 _]]] _]; rewrite H2; eexists; reflexivity.
Qed.

Lemma literal_empty_app (tokens : list Lexer1.Token) (t : Lexer1.Token) :
  Forall literal_empty tokens -> literal_empty t -> Forall literal_empty (tokens ++ [t]).
Proof.
  intros H1 H2. apply Forall_app. split; [exact H1 | constructor; [exact H2 | constructor]].
Qed.

(** One round of Tokenize from a lexer that has a current character: it
    appends a token and moves on, or fails with one of the six errors. *)
Lemma Tokenize_round_reached (s : GoString) (b : Z) (tokens : list Lexer1.Token)
    (l : Lexer1.Lexer) :
  0 <= b < 0x80 -> reached (s ++ [b]) b l -> Lexer1.ch l <> 0 ->
  Forall literal_empty tokens ->
  (exists tokens' l',
      Lexer1.Tokenize_round Digit tokens l = Ok (tokens', l')
      /\ reached (s ++ [b]) b l'
      /\ (Lexer1.readPosition l < Lexer1.readPosition l')%nat
      /\ Forall literal_empty tokens')
  \/ (exists e, Lexer1.Tokenize_round Digit tokens l = Err e /\ tokenize1_error e).
Proof.
  intros Hb Hl Hne Htoks. pose proof Hl as [Hin [H0 | [Hch Hrp]]]; [contradiction |].
  destruct (readChar_reached s b l Hb Hin) as [Hnext Hlt].
  destruct (IsSpace b) eqn:Hs.
  { right. unfold Lexer1.Tokenize_round, Lexer1.skipWhitespace, Lexer1.fuelOf.
    destruct (readWhile_trailing_whitespace s b (S (S (length (Lexer1.input l))))
                Hb Hs l Hin (or_introl Hch) ltac:(lia)) as (l' & -> & Hl').
    cbv zeta. rewrite Hl'. eexists. split; [reflexivity | constructor]. }
  destruct (Z_le_dec 48 b) as [H48 | H48]; [destruct (Z_le_dec b 57) as [H57 | H57] |].
  { left. rewrite (Tokenize_round_on_digit Digit) by (rewrite Hch; lia).
    eexists _, _. split; [reflexivity |]. split; [exact Hnext |]. split; [exact Hlt |].
    apply literal_empty_app; [exact Htoks | reflexivity]. }
  all: assert (Hdigit : Lexer1.IsDigit Digit b = false)
    by (unfold Lexer1.IsDigit, MaxLatin1;
        replace (b <=? 255) with true by (symmetry; apply Z.leb_le; lia);
        change (chr "0") with 48; change (chr "9") with 57;
        apply andb_false_iff;
        first [left; apply Z.leb_gt; lia | right; apply Z.leb_gt; lia]).
  all: unfold Lexer1.Tokenize_round, Lexer1.skipWhitespace, Lexer1.fuelOf;
    cbn [Lexer1.readWhile]; rewrite Hch, Hs; cbv zeta; rewrite Hch.
  all: repeat
    match goal with
    | |- context [if ?x =? chr "{" then _ else _] => destruct (x =? chr "{") eqn:?
    | |- context [if ?x =? chr "}" then _ else _] => destruct (x =? chr "}") eqn:?
    | |- context [if ?x =? chr "[" then _ else _] => destruct (x =? chr "[") eqn:?
    | |- context [if ?x =? chr "]" then _ else _] => destruct (x =? chr "]") eqn:?
    | |- context [if ?x =? chr ":" then _ else _] => destruct (x =? chr ":") eqn:?
    | |- context [if ?x =? chr "," then _ else _] => destruct (x =? chr ",") eqn:?
    end.
  all: try (left; eexists _, _; split; [reflexivity |];
            split; [exact Hnext |]; split; [exact Hlt |];
            apply literal_empty_app; [exact Htoks | exact I]).
  all: destruct (b =? quote) eqn:Equote.
  all: try (
    unfold Lexer1.readString, Lexer1.fuelOf; cbn [Lexer1.readString_loop];
    destruct Hnext as [Hin1 [H1 | [H1 _]]]; rewrite H1;
    [ right; eexists; split; [reflexivity | constructor]
    | rewrite Equote; cbv iota;
      destruct (readChar_reached s b (Lexer1.readChar l) Hb Hin1) as [Hnext2 Hlt2];
      left; eexists _, _; split; [reflexivity |];
      split; [exact Hnext2 |]; split; [lia |];
      apply literal_empty_app; [exact Htoks | reflexivity] ]).
  all: repeat
    match goal with
    | |- context [if ?x =? chr "t" then _ else _] => destruct (x =? chr "t") eqn:?
    | |- context [if ?x =? chr "f" then _ else _] => destruct (x =? chr "f") eqn:?
    | |- context [if ?x =? chr "n" then _ else _] => destruct (x =? chr "n") eqn:?
    end.
  all: try
    match goal with
    | |- context [if Lexer1.peekKeyWord ?l0 ?w then _ else _] =>
      destruct (Lexer1.peekKeyWord l0 w);
      [ destruct (advanceBy_reached s b (length w) l Hb Hl) as [Hadv Hle];
        destruct (readChar_reached s b (Lexer1.advanceBy l (length w)) Hb (proj1 Hadv))
          as [Hnext2 Hlt2];
        left; eexists _, _; split; [reflexivity |];
        split; [exact Hnext2 |]; split; [lia |];
        apply literal_empty_app; [exact Htoks | exact I]
      | right; eexists; split; [reflexivity | constructor] ]
    end.
  all: unfold Lexer1.isStartOfNumber; rewrite Hdigit, orb_false_r.
  all: destruct (b =? chr "-") eqn:Eminus;
    [ apply Z.eqb_eq in Eminus; rewrite Eminus in Hin, Hch;
      destruct (readNumber_on_minus s l Hin Hch) as [l' ->];
      right; eexists; split; [reflexivity | apply error_minus]
    | right; eexists; split; [reflexivity | constructor] ].
Qed.

(** The loop of Tokenize from a reached lexer with enough fuel. *)
Lemma Tokenize_loop_reached (s : GoString) (b : Z) :
  0 <= b < 0x80 ->
  forall (fuel : nat) (tokens : list Lexer1.Token) (l : Lexer1.Lexer),
    reached (s ++ [b]) b l -> Forall literal_empty tokens ->
    (1 <= fuel)%nat ->
    (Lexer1.ch l <> 0 -> (length s + 4 <= fuel + Lexer1.readPosition l)%nat) ->
    (exists tokens',
        Lexer1.Tokenize_loop Digit fuel tokens l = Ok tokens'
        /\ Forall literal_empty tokens')
    \/ (exists e, Lexer1.Tokenize_loop Digit fuel tokens l = Err e /\ tokenize1_error e).
Proof.
  intros Hb. induction fuel as [| fuel IH]; intros tokens l Hl Htoks Hone Hfuel; [lia |].
  cbn [Lexer1.Tokenize_loop]. destruct (Lexer1.ch l =? 0) eqn:E.
  { left. eexists. split; [reflexivity |].
    apply literal_empty_app; [exact Htoks | exact I]. }
  apply Z.eqb_neq in E. specialize (Hfuel E).
  destruct (Tokenize_round_reached s b tokens l Hb Hl E Htoks)
    as [(tokens' & l' & -> & Hl' & Hlt & Htoks') | (e & -> & He)].
  - assert (Hrp : (Lexer1.readPosition l <= length s + 2)%nat).
    { destruct Hl as [_ [H0 | [_ Hrp]]]; [contradiction |].
      rewrite length_app in Hrp. cbn [length] in Hrp. lia. }
    apply IH; [exact Hl' | exact Htoks' | | ].
    + destruct Hl' as [_ [H0 | [_ Hrp']]].
      * destruct Hl as [_ [H0' | [_ Hrp0]]]; [contradiction |].
        rewrite length_app in Hrp0. cbn [length] in Hrp0. lia.
      * rewrite length_app in Hrp'. cbn [length] in Hrp'. lia.
    + intros _. lia.
  - right. exists e. split; [reflexivity | exact He].
Qed.

(** X19.  Every text that ends in an ASCII character: Tokenize returns
    tokens in which every string and every number has the empty literal,
    or one of six errors.  None of the errors of the escape handling of
    readString (a [\u] escape included), of readUnicode, or of readNumber
    for the point and the exponent is ever returned: the current character
    is the last character of the text or 0 in every round. *)
Theorem tokenize1_ascii_ending (s : GoString) (b : Z) :
  0 <= b < 0x80 ->
  (exists tokens,
      tokenize1 Digit (s ++ [b]) = Ok tokens /\ Forall literal_empty tokens)
  \/ (exists e, tokenize1 Digit (s ++ [b]) = Err e /\ tokenize1_error e).
Proof.
  intros Hb. unfold tokenize1, Lexer1.Tokenize.
  destruct (readChar_reached s b (Lexer1.mkLexer (s ++ [b]) 0 0 0 1 0) Hb eq_refl)
    as [Hl Hlt].
  fold (Lexer1.NewLexer (s ++ [b])) in Hl, Hlt.
  apply (Tokenize_loop_reached s b Hb); [exact Hl | constructor | | ].
  - unfold Lexer1.fuelOf. lia.
  - intros Hne. unfold Lexer1.fuelOf. destruct Hl as [Hin _]. rewrite Hin.
    rewrite length_app. cbn [length].
    assert (Lexer1.readPosition (Lexer1.NewLexer (s ++ [b])) = 2%nat); [| lia].
    destruct (readChar_reads_last (Lexer1.mkLexer (s ++ [b]) 0 0 0 1 0) s b eq_refl Hb)
      as [_ Hp]; [cbn; rewrite length_app; cbn; lia | exact Hp].
Qed.

End Lexer1_reached.

Lemma tokenize1_ascii_ending_witness :
  (exists tokens,
      tokenize1 (fun _ => false) ((quote :: bytes "\u0041") ++ [quote]) = Ok tokens
      /\ Forall literal_empty tokens)
  \/ (exists e,
         tokenize1 (fun _ => false) ((quote :: bytes "\u0041") ++ [quote]) = Err e
         /\ tokenize1_error e).
Proof.
  apply (tokenize1_ascii_ending (fun _ => false) (quote :: bytes "\u0041") quote).
  split; [discriminate | reflexivity].
Defined.

(** ** parseObject: errors, the empty object, and the pairs *)

Section ParseObject_more.

Import parser.

Context {Value : Type}.
Variable pv : Parser -> result Value * Parser.

(** On anything but a left-brace parseObject fails with the error of
    line 17 and leaves the cursor where it was. *)
Lemma parseObject_not_brace (p : Parser) :
  Lexer1.Type_ (peek p) <> TokenLeftBrace ->
  parseObject pv p = (Fail (NewUnexpectedCharacterError (peek p) TokenLeftBrace), p).
Proof.
  intros H. unfold parseObject, parseObject_from, expectCurrent.
  rewrite bool_decide_eq_false_2 by exact H. reflexivity.
Qed.

Lemma loop_fuel_positive (p : Parser) (t : TokenType) :
  Lexer1.Type_ (peek p) = t -> t <> TokenEOF -> (0 < length (tokens p))%nat.
Proof.
  intros H Ht. destruct p as [toks i]. cbn [tokens].
  pose proof (peek_in_range toks i t H Ht). lia.
Qed.

(** X23.  The empty object: parseObject returns an object whose map is nil and
    leaves the cursor on the right-brace, which it does not consume. *)
Theorem parseObject_empty (p : Parser) :
  Lexer1.Type_ (peek p) = TokenLeftBrace ->
  Lexer1.Type_ (peek (nextToken p)) = TokenRightBrace ->
  parseObject pv p = (Return (ast.mkObject None), nextToken p).
Proof.
  intros Hopen Hclose. unfold parseObject, parseObject_from.
  rewrite (expectCurrent_eq _ _ TokenLeftBrace Hopen). cbn [negb bool_decide].
  rewrite parseObject_loop_stop by (left; exact Hclose).
  rewrite (expectCurrent_eq _ _ TokenRightBrace Hclose). reflexivity.
Qed.

(** X24.  A left-brace at the end of the input: the loop is not entered and
    the missing right-brace is the error. *)
Theorem parseObject_unclosed (p : Parser) :
  Lexer1.Type_ (peek p) = TokenLeftBrace ->
  Lexer1.Type_ (peek (nextToken p)) = TokenEOF ->
  parseObject pv p
  = (Fail (NewUnexpectedTokenError (peek (nextToken p)) TokenRightBrace), nextToken p).
Proof.
  intros Hopen Hend. unfold parseObject, parseObject_from.
  rewrite (expectCurrent_eq _ _ TokenLeftBrace Hopen). cbn [negb bool_decide].
  rewrite parseObject_loop_stop by (right; exact Hend).
  rewrite (expectCurrent_eq _ _ TokenRightBrace Hend). reflexivity.
Qed.

(** X25.  Where a key is expected, a token that is no string (a comma right
    after the left-brace, a number, ...) is the error of line 25, with the
    cursor on that token. *)
Theorem parseObject_key_not_string (p : Parser) :
  Lexer1.Type_ (peek p) = TokenLeftBrace ->
  Lexer1.Type_ (peek (nextToken p)) <> TokenRightBrace ->
  Lexer1.Type_ (peek (nextToken p)) <> TokenEOF ->
  Lexer1.Type_ (peek (nextToken p)) <> TokenString ->
  parseObject pv p
  = (Fail (NewUnexpectedTokenError (peek (nextToken p)) TokenString), nextToken p).
Proof.
  intros Hopen H1 H2 H3. unfold parseObject, parseObject_from.
  rewrite (expectCurrent_eq _ _ TokenLeftBrace Hopen). cbn [negb bool_decide].
  cbn [parseObject_loop]. unfold peekTypeIs.
  rewrite (bool_decide_eq_false_2 _ H1), (bool_decide_eq_false_2 _ H2),
    (bool_decide_eq_false_2 _ H3).
  reflexivity.
Qed.

(** X26.  A key that is not followed by a colon is the error of line 31, with
    the cursor after the key. *)
Theorem parseObject_missing_colon (p : Parser) :
  Lexer1.Type_ (peek p) = TokenLeftBrace ->
  Lexer1.Type_ (peek (nextToken p)) = TokenString ->
  Lexer1.Type_ (peek (nextToken (nextToken p))) <> TokenColon ->
  parseObject pv p
  = (Fail (NewUnexpectedTokenError (peek (nextToken (nextToken p))) TokenColon),
     nextToken (nextToken p)).
Proof.
  intros Hopen Hkey Hcolon. unfold parseObject, parseObject_from.
  rewrite (expectCurrent_eq _ _ TokenLeftBrace Hopen). cbn [negb bool_decide].
  cbn [parseObject_loop].
  rewrite (peekTypeIs_eq _ _ TokenRightBrace Hkey), (peekTypeIs_eq _ _ TokenEOF Hkey).
  rewrite Hkey. cbn [negb bool_decide andb].
  unfold expectCurrent. rewrite (bool_decide_eq_false_2 _ Hcolon).
  reflexivity.
Qed.

(** X27.  An error of parseValue for the value of a pair is returned as it
    is, with the cursor where parseValue left it. *)
Theorem parseObject_value_error (p p' : Parser) (err : perror) :
  Lexer1.Type_ (peek p) = TokenLeftBrace ->
  Lexer1.Type_ (peek (nextToken p)) = TokenString ->
  Lexer1.Type_ (peek (nextToken (nextToken p))) = TokenColon ->
  pv (nextToken (nextToken (nextToken p))) = (Fail err, p') ->
  parseObject pv p = (Fail err, p').
Proof.
  intros Hopen Hkey Hcolon Hvalue. unfold parseObject, parseObject_from.
  rewrite (expectCurrent_eq _ _ TokenLeftBrace Hopen). cbn [negb bool_decide].
  cbn [parseObject_loop].
  rewrite (peekTypeIs_eq _ _ TokenRightBrace Hkey), (peekTypeIs_eq _ _ TokenEOF Hkey).
  rewrite Hkey. cbn [negb bool_decide andb].
  rewrite (expectCurrent_eq _ _ TokenColon Hcolon). cbn [negb bool_decide].
  rewrite Hvalue. reflexivity.
Qed.

(** X28.  Every object with a pair panics: as soon as parseValue has returned
    the value of the first pair, line 40 assigns into the nil map. *)
Theorem parseObject_pair_panics (p p' : Parser) (value : Value) :
  Lexer1.Type_ (peek p) = TokenLeftBrace ->
  Lexer1.Type_ (peek (nextToken p)) = TokenString ->
  Lexer1.Type_ (peek (nextToken (nextToken p))) = TokenColon ->
  pv (nextToken (nextToken (nextToken p))) = (Return value, p') ->
  parseObject pv p = (Panic "assignment to entry in nil map", p').
Proof.
  intros Hopen Hkey Hcolon Hvalue. unfold parseObject, parseObject_from.
  rewrite (expectCurrent_eq _ _ TokenLeftBrace Hopen). cbn [negb bool_decide].
  cbn [parseObject_loop].
  rewrite (peekTypeIs_eq _ _ TokenRightBrace Hkey), (peekTypeIs_eq _ _ TokenEOF Hkey).
  rewrite Hkey. cbn [negb bool_decide andb].
  rewrite (expectCurrent_eq _ _ TokenColon Hcolon). cbn [negb bool_decide].
  rewrite Hvalue. reflexivity.
Qed.

(** X29.  Whatever parseObject returns as an object holds no pair: the object's
    map is the nil map of [&ast.Object{}], because the first assignment of
    line 40 panics. *)
Theorem parseObject_returns_nil_map (p p' : Parser) (obj : ast.Object Value) :
  parseObject pv p = (Return obj, p') -> ast.Pairs obj = None.
Proof. apply parseObject_no_pairs. Qed.

Lemma store_pairs_lookup (kvs : list (GoString * Value)) :
  forall (m : gmap GoString Value) (k : GoString),
    store_pairs m kvs !! k
    = match last_value k kvs with Some v => Some v | None => m !! k end.
Proof.
  induction kvs as [| [key value] kvs IH]; intros m k; [reflexivity |].
  cbn [store_pairs last_value]. rewrite IH.
  destruct (last_value k kvs); [reflexivity |].
  destruct (decide (key = k)) as [-> | Hne].
  - apply lookup_insert_eq.
  - apply lookup_insert_ne, Hne.
Qed.

Lemma parseObject_loop_pair_break (fuel : nat) (m : gmap GoString Value)
    (p p' : Parser) (value : Value) :
  Lexer1.Type_ (peek p) = TokenString ->
  Lexer1.Type_ (peek (nextToken p)) = TokenColon ->
  pv (nextToken (nextToken p)) = (Return value, p') ->
  Lexer1.Type_ (peek p') <> TokenComma ->
  parseObject_loop pv (S fuel) (ast.mkObject (Some m)) p
  = (Return (ast.mkObject (Some (<[Lexer1.Literal (peek p) := value]> m))), p').
Proof.
  intros Hkey Hcolon Hvalue Hcomma. cbn [parseObject_loop].
  rewrite (peekTypeIs_eq p _ TokenRightBrace Hkey), (peekTypeIs_eq p _ TokenEOF Hkey).
  rewrite Hkey. simpl negb. cbv iota. simpl andb. cbv iota.
  rewrite (expectCurrent_eq _ _ TokenColon Hcolon). simpl negb. cbv iota.
  rewrite Hvalue. cbn [mapassign ast.Pairs].
  unfold peekTypeIs. rewrite (bool_decide_eq_false_2 _ Hcomma). reflexivity.
Qed.

(** The loop of lines 22-47 on an allocated map stores the pairs in
    order. *)
Lemma parseObject_loop_pairs (p p' : Parser) (kvs : list (GoString * Value)) :
  pairs_from pv p kvs p' ->
  forall (fuel : nat) (m : gmap GoString Value),
    (length kvs < fuel)%nat ->
    parseObject_loop pv fuel (ast.mkObject (Some m)) p
    = (Return (ast.mkObject (Some (store_pairs m kvs))), p').
Proof.
  induction 1 as [p key value p' (Hk & Hl & Hc & Hv & _) Hn
                 | p key value p' (Hk & Hl & Hc & Hv & _) Hcomma Hclose
                 | p key value p' kvs p'' (Hk & Hl & Hc & Hv & _) Hcomma Hrest IH];
    intros fuel m Hfuel; cbn [length] in Hfuel.
  - destruct fuel as [| fuel]; [lia |].
    rewrite (parseObject_loop_pair_break fuel m p p' value Hk Hc Hv Hn), Hl.
    reflexivity.
  - destruct fuel as [| [| fuel]]; [lia | lia |].
    rewrite (parseObject_loop_pair_comma pv _ m p p' value Hk Hc Hv Hcomma), Hl.
    rewrite parseObject_loop_stop by exact Hclose. reflexivity.
  - destruct fuel as [| fuel]; [lia |].
    rewrite (parseObject_loop_pair_comma pv _ m p p' value Hk Hc Hv Hcomma), Hl.
    rewrite IH by lia. reflexivity.
Qed.

Lemma pairs_from_bound (p p' : Parser) (kvs : list (GoString * Value)) :
  pairs_from pv p kvs p' ->
  (current p + length kvs <= length (tokens p))%nat.
Proof.
  induction 1 as [p key value p' (Hk & _) _
                 | p key value p' (Hk & _) _ _
                 | p key value p' kvs p'' (Hk & _ & _ & _ & Ht & Hcur) _ _ IH];
    cbn [length].
  - destruct p as [toks i]. cbn [tokens current].
    pose proof (peek_in_range toks i TokenString Hk ltac:(discriminate)). lia.
  - destruct p as [toks i]. cbn [tokens current].
    pose proof (peek_in_range toks i TokenString Hk ltac:(discriminate)). lia.
  - cbn [nextToken tokens current] in *. rewrite Ht in IH. lia.
Qed.

(** X30.  Lines 16-53 on an object whose map is allocated: after a left-brace,
    pairs separated by commas and a right-brace, the object holds for every
    key the value of the last pair with that key, and keeps what the map
    held for the other keys. *)
Theorem parseObject_from_last_wins (p p' : Parser) (kvs : list (GoString * Value))
    (m : gmap GoString Value) :
  Lexer1.Type_ (peek p) = TokenLeftBrace ->
  pairs_from pv (nextToken p) kvs p' ->
  Lexer1.Type_ (peek p') = TokenRightBrace ->
  exists m' : gmap GoString Value,
    parseObject_from pv (ast.mkObject (Some m)) p
    = (Return (ast.mkObject (Some m')), p')
    /\ forall k : GoString,
         m' !! k = match last_value k kvs with Some v => Some v | None => m !! k end.
Proof.
  intros Hopen Hpairs Hclose. exists (store_pairs m kvs).
  split; [| intros k; apply store_pairs_lookup].
  unfold parseObject_from.
  rewrite (expectCurrent_eq _ _ TokenLeftBrace Hopen). simpl negb. cbv iota.
  pose proof (pairs_from_bound _ _ _ Hpairs) as Hbound.
  rewrite (parseObject_loop_pairs _ _ _ Hpairs) by lia.
  rewrite (expectCurrent_eq _ _ TokenRightBrace Hclose). reflexivity.
Qed.

End ParseObject_more.

Lemma parseObject_returns_nil_map_witness :
  ast.Pairs (ast.mkObject None : ast.Object ast.Value) = None.
Proof.
  apply (parseObject_returns_nil_map (parser.parseValue 2)
           (parser.mkParser tokens_empty_object 0)
           (parser.mkParser tokens_empty_object 1)).
  reflexivity.
Defined.

Lemma parseObject_not_brace_witness :
  parser.parseObject (parser.parseValue 2) (parser.mkParser tokens_empty_object 1)
  = (parser.Fail (parser.NewUnexpectedCharacterError
                    (parser.peek (parser.mkParser tokens_empty_object 1))
                    TokenLeftBrace),
     parser.mkParser tokens_empty_object 1).
Proof.
  apply parseObject_not_brace. discriminate.
Defined.

Lemma parseObject_empty_witness :
  parser.parseObject (parser.parseValue 2) (parser.mkParser tokens_empty_object 0)
  = (parser.Return (ast.mkObject None),
     parser.nextToken (parser.mkParser tokens_empty_object 0)).
Proof.
  apply parseObject_empty; reflexivity.
Defined.

Lemma parseObject_unclosed_witness :
  parser.parseObject (parser.parseValue 2) (parser.mkParser tokens_unclosed_object 0)
  = (parser.Fail (parser.NewUnexpectedTokenError
                    (parser.peek (parser.nextToken
                                    (parser.mkParser tokens_unclosed_object 0)))
                    TokenRightBrace),
     parser.nextToken (parser.mkParser tokens_unclosed_object 0)).
Proof.
  apply parseObject_unclosed; reflexivity.
Defined.

Lemma parseObject_key_not_string_witness :
  parser.parseObject (parser.parseValue 2) (parser.mkParser tokens_comma_first 0)
  = (parser.Fail (parser.NewUnexpectedTokenError
                    (parser.peek (parser.nextToken
                                    (parser.mkParser tokens_comma_first 0)))
                    TokenString),
     parser.nextToken (parser.mkParser tokens_comma_first 0)).
Proof.
  apply parseObject_key_not_string; try reflexivity; discriminate.
Defined.

Lemma parseObject_missing_colon_witness :
  parser.parseObject (parser.parseValue 2) (parser.mkParser tokens_no_colon 0)
  = (parser.Fail (parser.NewUnexpectedTokenError
                    (parser.peek (parser.nextToken (parser.nextToken
                                    (parser.mkParser tokens_no_colon 0))))
                    TokenColon),
     parser.nextToken (parser.nextToken (parser.mkParser tokens_no_colon 0))).
Proof.
  apply parseObject_missing_colon; try reflexivity. discriminate.
Defined.

Lemma parseObject_value_error_witness :
  parser.parseObject (parser.parseValue 2) (parser.mkParser tokens_no_value 0)
  = (parser.Fail (parser.ErrUnexpectedToken
                    (parser.peek (parser.mkParser tokens_no_value 3))
                    [TokenLeftBrace; TokenLeftBracket; TokenString; TokenNumber;
                     TokenTrue; TokenFalse; TokenNull]),
     parser.mkParser tokens_no_value 3).
Proof.
  apply parseObject_value_error; reflexivity.
Defined.

Lemma parseObject_pair_panics_witness :
  parser.parseObject (parser.parseValue 2) (parser.mkParser tokens_duplicate_key 0)
  = (parser.Panic "assignment to entry in nil map",
     parser.mkParser tokens_duplicate_key 4).
Proof.
  apply (parseObject_pair_panics (parser.parseValue 2)
           (parser.mkParser tokens_duplicate_key 0)
           (parser.mkParser tokens_duplicate_key 4)
           (ast.VNumber (bytes "1"))); reflexivity.
Defined.

Lemma parseObject_from_last_wins_witness :
  exists m' : gmap GoString ast.Value,
    parser.parseObject_from (parser.parseValue 2) (ast.mkObject (Some ∅))
      (parser.mkParser tokens_duplicate_key 0)
    = (parser.Return (ast.mkObject (Some m')), parser.mkParser tokens_duplicate_key 8)
    /\ forall k : GoString,
         m' !! k
         = match last_value k [(bytes "a", ast.VNumber (bytes "1"));
                               (bytes "a", ast.VNumber (bytes "2"))] with
           | Some v => Some v
           | None => (∅ : gmap GoString ast.Value) !! k
           end.
Proof.
  apply (parseObject_from_last_wins (parser.parseValue 2)
           (parser.mkParser tokens_duplicate_key 0)
           (parser.mkParser tokens_duplicate_key 8)
           [(bytes "a", ast.VNumber (bytes "1")); (bytes "a", ast.VNumber (bytes "2"))]
           ∅).
  - reflexivity.
  - apply (pairs_more _ _ _ _ (parser.mkParser tokens_duplicate_key 4)).
    + repeat split; cbn; lia.
    + reflexivity.
    + apply pairs_last.
      * repeat split; cbn; lia.
      * discriminate.
  - reflexivity.
Defined.
